(** * getalljobs: the fresher/remote classifier and the job deduplicator

    A shallow embedding of the classification and deduplication core of the
    job scrapers ([7advanced_remote_scraper.go], with the variants of
    [6fresher_remote_scraper.go], [4jobswithnotification.go],
    [3multipleplatform.go] and the Redis-backed scraper listed in
    [NOTIFICATION_SETUP.md]), and the properties the specification states
    about them.

    Go strings are byte strings and are modelled by [string] (a list of
    8-bit [ascii] bytes).  The functions of Go's [strings] package are
    modelled on bytes: [ToLower] maps the ASCII letters [A-Z] to [a-z] and
    [TrimSpace] strips ASCII white space; the additional Unicode case
    mappings and Unicode spaces that Go applies to multi-byte UTF-8
    sequences are outside the model (such bytes are kept as they are).  The
    properties below either hold for every function in the place of
    [ToLower], or are stated for ASCII text ([is_ascii]), on which the model
    and Go agree byte for byte. *)

From Stdlib Require Import Ascii String.
From stdpp Require Import gmap strings list.

Local Open Scope stdpp_scope.

(* stdpp's solvers clear hypotheses that may already be gone. *)
#[local] Set Warnings "-clear-no-such-hyp".

(** ** Go's [strings] package, on byte strings *)

Module strings.

Definition is_upper (c : ascii) : bool :=
  let n := nat_of_ascii c in (65 <=? n)%nat && (n <=? 90)%nat.

Definition lower_byte (c : ascii) : ascii :=
  if is_upper c then ascii_of_nat (nat_of_ascii c + 32) else c.

(** [strings.ToLower] *)
Fixpoint ToLower (s : string) : string :=
  match s with
  | EmptyString => EmptyString
  | String c s' => String (lower_byte c) (ToLower s')
  end.

(** [strings.HasPrefix] *)
Fixpoint HasPrefix (s p : string) {struct p} : bool :=
  match p, s with
  | EmptyString, _ => true
  | String _ _, EmptyString => false
  | String a p', String b s' => if decide (a = b) then HasPrefix s' p' else false
  end.

(** [strings.Contains]: [substr] occurs in [s] at some byte offset. *)
Fixpoint Contains (s substr : string) : bool :=
  if HasPrefix s substr then true
  else match s with
       | EmptyString => false
       | String _ s' => Contains s' substr
       end.

(** [strings.ReplaceAll] for a non-empty [old]: the non-overlapping
    occurrences of [old] are replaced from left to right.  [skip] counts the
    bytes of an occurrence that are still to be dropped.  (For an empty [old]
    Go inserts [new] around every rune; no caller does that, and the model
    returns [s] unchanged there.) *)
Fixpoint replace_from (old new : string) (skip : nat) (s : string) : string :=
  match s with
  | EmptyString => EmptyString
  | String c s' =>
      match skip with
      | S k => replace_from old new k s'
      | O =>
          if HasPrefix s old
          then new +:+ replace_from old new (String.length old - 1) s'
          else String c (replace_from old new 0 s')
      end
  end.

Definition ReplaceAll (s old new : string) : string :=
  match old with
  | EmptyString => s
  | _ => replace_from old new 0 s
  end.

(** ASCII white space as [unicode.IsSpace] sees it: tab, line feed, vertical
    tab, form feed, carriage return and space. *)
Definition is_space (c : ascii) : bool :=
  match nat_of_ascii c with
  | 9 | 10 | 11 | 12 | 13 | 32 => true
  | _ => false
  end.

Fixpoint TrimLeft (s : string) : string :=
  match s with
  | EmptyString => EmptyString
  | String c s' => if is_space c then TrimLeft s' else s
  end.

Fixpoint TrimRight (s : string) : string :=
  match s with
  | EmptyString => EmptyString
  | String c s' =>
      match TrimRight s' with
      | EmptyString => if is_space c then EmptyString else String c EmptyString
      | r => String c r
      end
  end.

(** [strings.TrimSpace] *)
Definition TrimSpace (s : string) : string := TrimRight (TrimLeft s).

End strings.

(** ** Go's [regexp] package: the fragment the classifier's patterns use

    The patterns are written as syntax trees.  [regexp.MatchString] looks for
    a match anywhere in the text (the patterns are not anchored).  All atoms
    of the patterns are ASCII, so matching byte by byte agrees with Go's
    matching rune by rune. *)

Module regexp.

Inductive regex : Type :=
  | Void : regex                       (* matches nothing *)
  | Eps : regex                        (* the empty string *)
  | Chars (cs : list ascii) : regex    (* one byte of a class; a literal is a class of one *)
  | Cat (r1 r2 : regex) : regex
  | Alt (r1 r2 : regex) : regex
  | Star (r : regex) : regex.

(** [r?] *)
Definition Opt (r : regex) : regex := Alt r Eps.

(** A literal word. *)
Fixpoint Str (s : string) : regex :=
  match s with
  | EmptyString => Eps
  | String c s' => Cat (Chars [c]) (Str s')
  end.

(** [\s] is [[\t\n\f\r ]] in Go's (RE2) syntax. *)
Definition space_class : list ascii :=
  [ascii_of_nat 9; ascii_of_nat 10; ascii_of_nat 12; ascii_of_nat 13; ascii_of_nat 32].

(** The language of a pattern. *)
Inductive Matches : regex -> string -> Prop :=
  | MEps : Matches Eps EmptyString
  | MChars c cs : c ∈ cs -> Matches (Chars cs) (String c EmptyString)
  | MCat r1 r2 s1 s2 :
      Matches r1 s1 -> Matches r2 s2 -> Matches (Cat r1 r2) (s1 +:+ s2)
  | MAltL r1 r2 s : Matches r1 s -> Matches (Alt r1 r2) s
  | MAltR r1 r2 s : Matches r2 s -> Matches (Alt r1 r2) s
  | MStar0 r : Matches (Star r) EmptyString
  | MStarS r s1 s2 :
      Matches r s1 -> Matches (Star r) s2 -> Matches (Star r) (s1 +:+ s2).

Fixpoint nullable (r : regex) : bool :=
  match r with
  | Void => false
  | Eps => true
  | Chars _ => false
  | Cat r1 r2 => nullable r1 && nullable r2
  | Alt r1 r2 => nullable r1 || nullable r2
  | Star _ => true
  end.

(** The derivative of [r] by the byte [c]. *)
Fixpoint der (c : ascii) (r : regex) : regex :=
  match r with
  | Void => Void
  | Eps => Void
  | Chars cs => if bool_decide (c ∈ cs) then Eps else Void
  | Cat r1 r2 =>
      if nullable r1 then Alt (Cat (der c r1) r2) (der c r2)
      else Cat (der c r1) r2
  | Alt r1 r2 => Alt (der c r1) (der c r2)
  | Star r1 => Cat (der c r1) (Star r1)
  end.

(** Some prefix of [s] is in the language of [r]. *)
Fixpoint match_prefix (r : regex) (s : string) : bool :=
  nullable r ||
  match s with
  | EmptyString => false
  | String c s' => match_prefix (der c r) s'
  end.

(** [regexp.MatchString] on a compiled pattern: a match starting at some
    offset of [s]. *)
Fixpoint MatchString (r : regex) (s : string) : bool :=
  match_prefix r s ||
  match s with
  | EmptyString => false
  | String _ s' => MatchString r s'
  end.

End regexp.

Import strings regexp.

(** ** The scraper of [7advanced_remote_scraper.go] *)

(** [RemoteJob] *)
Record RemoteJob : Type := {
  ID : string;
  Platform : string;
  Title : string;
  Company : string;
  Location : string;
  Description : string;
  Salary : string;
  PostedDate : string;
  JobType : string;
  Experience : string;
  Tags : list string;
  IsRemote : bool;
  IsFresher : bool;
  URL : string;
  ApplyURL : string
}.

#[global] Instance RemoteJob_eq_dec : EqDecision RemoteJob.
Proof. solve_decision. Defined.

(** A line written by [log.Printf("Found: %s at %s (%s)", ...)]. *)
Inductive LogEntry : Type :=
  | LogFound (title company platform : string).

(** [JobScraper]: the fields the classifier and the deduplicator use.  The
    mutex is modelled by the scheduler below; the rate limiter, the HTTP
    client and the user agents take no part in classification or
    deduplication.  [logged] is what the scraper has written to the standard
    logger so far. *)
Record JobScraper : Type := {
  jobs : list RemoteJob;
  fresherKeywords : list string;
  remoteKeywords : list string;
  excludeKeywords : list string;
  jobTitles : list string;
  seenJobs : gmap string bool;
  logged : list LogEntry
}.

(** [NewJobScraper] *)
Definition NewJobScraper : JobScraper := {|
  jobs := [];
  fresherKeywords :=
    ["entry level"; "junior"; "fresher"; "graduate"; "trainee"; "intern"; "associate";
     "no experience"; "0-1 years"; "0-2 years"; "recent graduate"; "new grad";
     "entry-level"; "beginner"; "starting"; "career starter"; "apprentice"];
  remoteKeywords :=
    ["remote"; "work from home"; "telecommute"; "distributed"; "virtual";
     "home office"; "anywhere"; "location independent"; "wfh"; "remote-first";
     "fully remote"; "100% remote"; "remote work"; "remote position"];
  excludeKeywords :=
    ["senior"; "lead"; "principal"; "architect"; "manager"; "director"; "head of";
     "5+ years"; "10+ years"; "experienced"; "expert"; "specialist"; "chief";
     "3+ years"; "4+ years"; "minimum 3"; "minimum 5"; "at least 3"; "at least 5"];
  jobTitles :=
    ["software engineer"; "software developer"; "web developer"; "frontend developer";
     "backend developer"; "full stack developer"; "junior developer"; "entry level developer";
     "python developer"; "javascript developer"; "react developer"; "node.js developer";
     "java developer"; "c# developer"; "php developer"; "ruby developer";
     "mobile developer"; "ios developer"; "android developer"; "flutter developer";
     "data analyst"; "data scientist"; "business analyst"; "research analyst";
     "sql analyst"; "reporting analyst"; "junior data analyst";
     "qa engineer"; "software tester"; "test engineer"; "quality assurance";
     "automation tester"; "manual tester";
     "devops engineer"; "cloud engineer"; "system administrator"; "infrastructure engineer";
     "ui designer"; "ux designer"; "ui/ux designer"; "graphic designer";
     "web designer"; "product designer"; "visual designer";
     "digital marketing"; "content writer"; "marketing coordinator"; "social media";
     "seo specialist"; "content creator"; "marketing assistant";
     "customer support"; "technical support"; "help desk"; "customer success";
     "product manager"; "project coordinator"; "scrum master"; "business analyst";
     "sales representative"; "account executive"; "business development"; "inside sales"];
  seenJobs := ∅;
  logged := []
|}.

(** The classes and the patterns of [isFresherJob]. *)
Definition space_or_dash : regex := Chars (space_class ++ ["-"%char]).
Definition one_or_two : regex := Chars ["1"%char; "2"%char].

(** [0[\s-]?[12]?\s*years?] *)
Definition pat_years : regex :=
  Cat (Str "0") (Cat (Opt space_or_dash) (Cat (Opt one_or_two)
    (Cat (Star (Chars space_class)) (Cat (Str "year") (Opt (Str "s")))))).
(** [entry[\s-]?level] *)
Definition pat_entry_level : regex :=
  Cat (Str "entry") (Cat (Opt space_or_dash) (Str "level")).
(** [new[\s-]?grad] *)
Definition pat_new_grad : regex :=
  Cat (Str "new") (Cat (Opt space_or_dash) (Str "grad")).
(** [no[\s-]?experience] *)
Definition pat_no_experience : regex :=
  Cat (Str "no") (Cat (Opt space_or_dash) (Str "experience")).
(** [recent[\s-]?graduate] *)
Definition pat_recent_graduate : regex :=
  Cat (Str "recent") (Cat (Opt space_or_dash) (Str "graduate")).

Definition patterns : list regex :=
  [pat_years; pat_entry_level; pat_new_grad; pat_no_experience; pat_recent_graduate].

(** [isFresherJob]: the three loops return at the first hit. *)
Definition isFresherJob (js : JobScraper) (title description : string) : bool :=
  let combined := ToLower (title +:+ " " +:+ description) in
  if existsb (fun keyword => Contains combined keyword) (excludeKeywords js) then false
  else if existsb (fun keyword => Contains combined keyword) (fresherKeywords js) then true
  else if existsb (fun pattern => MatchString pattern combined) patterns then true
  else false.

(** [isRemoteJob] *)
Definition isRemoteJob (js : JobScraper) (title location description : string) : bool :=
  let combined := ToLower (title +:+ " " +:+ location +:+ " " +:+ description) in
  if existsb (fun keyword => Contains combined keyword) (remoteKeywords js) then true
  else false.

(** [generateJobID]: [fmt.Sprintf("%s_%s", ...)] of the lowercased company
    and title, each with its spaces replaced by underscores. *)
Definition generateJobID (title company : string) : string :=
  ReplaceAll (ToLower company) " " "_" +:+ "_" +:+ ReplaceAll (ToLower title) " " "_".

Definition set_ID (job : RemoteJob) (id : string) : RemoteJob := {|
  ID := id; Platform := Platform job; Title := Title job; Company := Company job;
  Location := Location job; Description := Description job; Salary := Salary job;
  PostedDate := PostedDate job; JobType := JobType job; Experience := Experience job;
  Tags := Tags job; IsRemote := IsRemote job; IsFresher := IsFresher job;
  URL := URL job; ApplyURL := ApplyURL job
|}.

(** [js.seenJobs[jobID]]: a missing key reads as [false]. *)
Definition seen (js : JobScraper) (jobID : string) : bool :=
  default false (seenJobs js !! jobID).

(** [addJob], the body between [Lock] and the deferred [Unlock]. *)
Definition addJob (js : JobScraper) (job : RemoteJob) : JobScraper :=
  let jobID := generateJobID (Title job) (Company job) in
  if negb (seen js jobID) then
    {| jobs := jobs js ++ [set_ID job jobID];
       fresherKeywords := fresherKeywords js;
       remoteKeywords := remoteKeywords js;
       excludeKeywords := excludeKeywords js;
       jobTitles := jobTitles js;
       seenJobs := <[jobID := true]> (seenJobs js);
       logged := logged js ++ [LogFound (Title job) (Company job) (Platform job)] |}
  else js.

(** The identity [addJob] computes for a job. *)
Definition jobID (job : RemoteJob) : string :=
  generateJobID (Title job) (Company job).

(** Whether [addJob] takes its branch, that is, appends the job. *)
Definition admitted (js : JobScraper) (job : RemoteJob) : bool :=
  negb (seen js (jobID job)).

(** *** [generateMoreSampleJobs]: the sample jobs added before scraping *)










(** *** The [OnHTML] callbacks of the five sources

    A [colly.HTMLElement] is used through [ChildText], [ChildAttr] and the
    URL of its request only.  [now] is [time.Now().Format("2006-01-02")]. *)
Record HTMLElement : Type := {
  ChildText : string -> string;
  ChildAttr : string -> string -> string;
  RequestURL : string
}.

(** The callback of [scrapeRemoteOK]. *)
Definition scrapeRemoteOK (now : string) (js : JobScraper) (e : HTMLElement) : JobScraper :=
  let title := TrimSpace (ChildText e "td:nth-child(3) h2") in
  let company := TrimSpace (ChildText e "td:nth-child(3) h3") in
  let tags := TrimSpace (ChildText e "td:nth-child(3) .tags") in
  if bool_decide (title ≠ "") && bool_decide (company ≠ "") then
    if isFresherJob js title tags then
      addJob js {| ID := ""; Platform := "RemoteOK"; Title := title; Company := company;
                   Location := "Remote"; Description := tags; Salary := "";
                   PostedDate := now; JobType := ""; Experience := ""; Tags := [];
                   IsRemote := true; IsFresher := true;
                   URL := "https://remoteok.io"; ApplyURL := "" |}
    else js
  else js.

(** The callback of [scrapeWeWorkRemotely]. *)
Definition scrapeWeWorkRemotely (now : string) (js : JobScraper) (e : HTMLElement) : JobScraper :=
  let title := TrimSpace (ChildText e "h2") in
  let company := TrimSpace (ChildText e ".company") in
  let location := TrimSpace (ChildText e ".region") in
  if bool_decide (title ≠ "") && bool_decide (company ≠ "") then
    if isFresherJob js title "" && isRemoteJob js title location "" then
      addJob js {| ID := ""; Platform := "WeWorkRemotely"; Title := title; Company := company;
                   Location := location; Description := ""; Salary := "";
                   PostedDate := now; JobType := ""; Experience := ""; Tags := [];
                   IsRemote := true; IsFresher := true;
                   URL := "https://weworkremotely.com"; ApplyURL := "" |}
    else js
  else js.

(** The callback of [scrapeFlexJobs]. *)
Definition scrapeFlexJobs (now : string) (js : JobScraper) (e : HTMLElement) : JobScraper :=
  let title := TrimSpace (ChildText e ".job-title") in
  let company := TrimSpace (ChildText e ".job-company") in
  let location := TrimSpace (ChildText e ".job-location") in
  if bool_decide (title ≠ "") && bool_decide (company ≠ "") then
    if isFresherJob js title "" && isRemoteJob js title location "" then
      addJob js {| ID := ""; Platform := "FlexJobs"; Title := title; Company := company;
                   Location := location; Description := ""; Salary := "";
                   PostedDate := now; JobType := ""; Experience := ""; Tags := [];
                   IsRemote := true; IsFresher := true;
                   URL := "https://flexjobs.com"; ApplyURL := "" |}
    else js
  else js.

(** The callback of [scrapeJustRemote]. *)
Definition scrapeJustRemote (now : string) (js : JobScraper) (e : HTMLElement) : JobScraper :=
  let title := TrimSpace (ChildText e ".job-title") in
  let company := TrimSpace (ChildText e ".company-name") in
  if bool_decide (title ≠ "") && bool_decide (company ≠ "") then
    if isFresherJob js title "" then
      addJob js {| ID := ""; Platform := "JustRemote"; Title := title; Company := company;
                   Location := "Remote"; Description := ""; Salary := "";
                   PostedDate := now; JobType := ""; Experience := ""; Tags := [];
                   IsRemote := true; IsFresher := true;
                   URL := "https://justremote.co"; ApplyURL := "" |}
    else js
  else js.

(** The callback of [scrapeRemoteCo]. *)
Definition scrapeRemoteCo (now : string) (js : JobScraper) (e : HTMLElement) : JobScraper :=
  let title := TrimSpace (ChildText e ".job_listing-title") in
  let company := TrimSpace (ChildText e ".job_listing-company") in
  if bool_decide (title ≠ "") && bool_decide (company ≠ "") then
    if isFresherJob js title "" then
      addJob js {| ID := ""; Platform := "Remote.co"; Title := title; Company := company;
                   Location := "Remote"; Description := ""; Salary := "";
                   PostedDate := now; JobType := ""; Experience := ""; Tags := [];
                   IsRemote := true; IsFresher := true;
                   URL := "https://remote.co"; ApplyURL := "" |}
    else js
  else js.

(** The sources [ScrapeAllSources] runs, one goroutine each. *)
Inductive Source : Type :=
  | RemoteOK | WeWorkRemotely | FlexJobs | JustRemote | RemoteCo.

Definition onHTML (src : Source) : string -> JobScraper -> HTMLElement -> JobScraper :=
  match src with
  | RemoteOK => scrapeRemoteOK
  | WeWorkRemotely => scrapeWeWorkRemotely
  | FlexJobs => scrapeFlexJobs
  | JustRemote => scrapeJustRemote
  | RemoteCo => scrapeRemoteCo
  end.






(** ** The scraper of [6fresher_remote_scraper.go]: no deduplication, three
    patterns *)

Module Fresher6.

(** [FresherJob] *)
Record FresherJob : Type := {
  Platform : string;
  Title : string;
  Company : string;
  Location : string;
  Description : string;
  Salary : string;
  PostedDate : string;
  IsRemote : bool;
  IsFresher : bool;
  URL : string;
  ApplyURL : string
}.

(** [FresherJobScraper] *)
Record FresherJobScraper : Type := {
  jobs : list FresherJob;
  fresherKeywords : list string;
  remoteKeywords : list string;
  excludeKeywords : list string
}.

(** [NewFresherJobScraper] *)
Definition NewFresherJobScraper : FresherJobScraper := {|
  jobs := [];
  fresherKeywords :=
    ["entry level"; "junior"; "fresher"; "graduate"; "trainee"; "intern";
     "no experience"; "0-1 years"; "0-2 years"; "recent graduate";
     "entry-level"; "beginner"; "associate"; "new grad"; "starting"];
  remoteKeywords :=
    ["remote"; "work from home"; "telecommute"; "distributed";
     "home office"; "anywhere"; "location independent"; "wfh"];
  excludeKeywords :=
    ["senior"; "lead"; "principal"; "architect"; "manager"; "director";
     "5+ years"; "10+ years"; "experienced"; "expert"; "specialist"]
|}.

Definition patterns : list regex := [pat_years; pat_entry_level; pat_new_grad].

(** [isFresherJob] *)
Definition isFresherJob (fjs : FresherJobScraper) (title description : string) : bool :=
  let combined := ToLower (title +:+ " " +:+ description) in
  if existsb (fun keyword => Contains combined keyword) (excludeKeywords fjs) then false
  else if existsb (fun keyword => Contains combined keyword) (fresherKeywords fjs) then true
  else if existsb (fun pattern => MatchString pattern combined) patterns then true
  else false.

(** [isRemoteJob] *)
Definition isRemoteJob (fjs : FresherJobScraper) (title location description : string) : bool :=
  let combined := ToLower (title +:+ " " +:+ location +:+ " " +:+ description) in
  if existsb (fun keyword => Contains combined keyword) (remoteKeywords fjs) then true
  else false.

Definition append_job (fjs : FresherJobScraper) (job : FresherJob) : FresherJobScraper := {|
  jobs := jobs fjs ++ [job];
  fresherKeywords := fresherKeywords fjs;
  remoteKeywords := remoteKeywords fjs;
  excludeKeywords := excludeKeywords fjs
|}.

(** The [OnHTML] callback of [scrapeIndeed]. *)
Definition scrapeIndeed (fjs : FresherJobScraper) (e : HTMLElement) : FresherJobScraper :=
  let title := TrimSpace (ChildText e "h2 a span") in
  let title := if bool_decide (title = "") then TrimSpace (ChildText e "h2 span") else title in
  let company := TrimSpace (ChildText e "span.companyName") in
  let location := TrimSpace (ChildText e "div.companyLocation") in
  let description := TrimSpace (ChildText e "div.job-snippet") in
  let salary := TrimSpace (ChildText e "span.salaryText") in
  let postedDate := TrimSpace (ChildText e "span.date") in
  let applyLink := ChildAttr e "h2 a" "href" in
  let applyLink :=
    if bool_decide (applyLink ≠ "") && negb (HasPrefix applyLink "http")
    then "https://www.indeed.com" +:+ applyLink else applyLink in
  if bool_decide (title ≠ "") && bool_decide (company ≠ "") then
    let isFresher := isFresherJob fjs title description in
    let isRemote := isRemoteJob fjs title location description in
    if isFresher && isRemote then
      append_job fjs {| Platform := "Indeed"; Title := title; Company := company;
                        Location := location; Description := description;
                        Salary := salary; PostedDate := postedDate;
                        IsRemote := isRemote; IsFresher := isFresher;
                        URL := RequestURL e; ApplyURL := applyLink |}
    else fjs
  else fjs.

(** The [OnHTML] callback of [scrapeRemoteOK]. *)
Definition scrapeRemoteOK (fjs : FresherJobScraper) (e : HTMLElement) : FresherJobScraper :=
  let title := TrimSpace (ChildText e "td.company h2") in
  let company := TrimSpace (ChildText e "td.company h3") in
  let description := TrimSpace (ChildText e "td.company .description") in
  let salary := TrimSpace (ChildText e "td.salary") in
  let applyLink := ChildAttr e "td.company a" "href" in
  let applyLink :=
    if bool_decide (applyLink ≠ "") && negb (HasPrefix applyLink "http")
    then "https://remoteok.io" +:+ applyLink else applyLink in
  if bool_decide (title ≠ "") && bool_decide (company ≠ "") then
    let isFresher := isFresherJob fjs title description in
    if isFresher then
      append_job fjs {| Platform := "RemoteOK"; Title := title; Company := company;
                        Location := "Remote"; Description := description;
                        Salary := salary; PostedDate := "";
                        IsRemote := true; IsFresher := isFresher;
                        URL := RequestURL e; ApplyURL := applyLink |}
    else fjs
  else fjs.

(** The callbacks of the two goroutines of [ScrapeAll], in the order in which
    they append. *)
Inductive Source : Type := Indeed | RemoteOK.

Definition onHTML (src : Source) : FresherJobScraper -> HTMLElement -> FresherJobScraper :=
  match src with
  | Indeed => scrapeIndeed
  | RemoteOK => scrapeRemoteOK
  end.


End Fresher6.

(** ** The scraper of [3multipleplatform.go]: no classifier, no deduplication *)

Module Multi3.

(** [PlatformSelector] *)
Record PlatformSelector : Type := {
  JobContainer : string;
  SelTitle : string;
  SelCompany : string;
  SelLocation : string;
  SelDescription : string;
  SelSalary : string;
  SelPostedDate : string
}.

(** [Platform] (the fields [Scrape]'s callback reads) *)
Record Platform : Type := {
  Name : string;
  Selector : PlatformSelector
}.

(** [Job] *)
Record Job : Type := {
  JPlatform : string;
  Title : string;
  Company : string;
  Location : string;
  Description : string;
  Salary : string;
  PostedDate : string;
  URL : string
}.



End Multi3.

(** ** The Redis-backed scraper listed in [NOTIFICATION_SETUP.md] *)

Module Redis.

(** [Job] ([AddedAt] is kept as its formatted text) *)
Record Job : Type := {
  ID : string;
  Platform : string;
  Title : string;
  Company : string;
  Location : string;
  Description : string;
  Salary : string;
  PostedDate : string;
  URL : string;
  Skills : list string;
  AddedAt : string
}.




End Redis.

(** ** The scraper of [4jobswithnotification.go]

    Its [generateJobID] is the one above; its [addJob] also counts the new
    jobs. *)

Module Notify4.

(** [JobScraper]: the fields shared with the scraper above, and the counter
    (the notification settings take no part in deduplication). *)
Record JobScraper4 : Type := {
  base : JobScraper;
  newJobsCount : nat
}.

(** [addJob] *)
Definition addJob (js : JobScraper4) (job : RemoteJob) : JobScraper4 :=
  let jobID := generateJobID (Title job) (Company job) in
  if negb (seen (base js) jobID) then
    {| base :=
         {| jobs := jobs (base js) ++ [set_ID job jobID];
            fresherKeywords := fresherKeywords (base js);
            remoteKeywords := remoteKeywords (base js);
            excludeKeywords := excludeKeywords (base js);
            jobTitles := jobTitles (base js);
            seenJobs := <[jobID := true]> (seenJobs (base js));
            logged := logged (base js) ++ [LogFound (Title job) (Company job) (Platform job)] |};
       newJobsCount := S (newJobsCount js) |}
  else js.

End Notify4.

(** The outcome of each call of a sequence of [addJob] calls. *)
Fixpoint outcomes (js : JobScraper) (l : list RemoteJob) : list (RemoteJob * bool) :=
  match l with
  | [] => []
  | job :: l' => (job, admitted js job) :: outcomes (addJob js job) l'
  end.

(** ** Goroutines calling [addJob] concurrently

    [addJob] locks [jobsMutex], runs its body and unlocks on return.  A
    goroutine inside [addJob] is at one of the program points below; the
    scheduler picks, step after step, the goroutine that runs next.  A
    goroutine that is picked while it waits for the mutex does not move. *)

Module Concurrent.

Inductive pc : Type :=
  | AtLock (job : RemoteJob)                     (* js.jobsMutex.Lock() *)
  | AtCheck (job : RemoteJob)                    (* jobID := ...; if !js.seenJobs[jobID] *)
  | AtAppend (job : RemoteJob) (jobID : string)  (* job.ID = jobID; js.jobs = append(js.jobs, job) *)
  | AtMark (job : RemoteJob) (jobID : string)    (* js.seenJobs[jobID] = true *)
  | AtLog (job : RemoteJob)                      (* log.Printf(...) *)
  | AtUnlock (job : RemoteJob) (added : bool)    (* the deferred js.jobsMutex.Unlock() *)
  | Done (job : RemoteJob) (added : bool).       (* returned *)

Record Config : Type := {
  shared : JobScraper;
  mutex : bool;              (* true while [jobsMutex] is held *)
  goroutines : list pc
}.

Definition set_jobs (js : JobScraper) (l : list RemoteJob) : JobScraper := {|
  jobs := l; fresherKeywords := fresherKeywords js; remoteKeywords := remoteKeywords js;
  excludeKeywords := excludeKeywords js; jobTitles := jobTitles js;
  seenJobs := seenJobs js; logged := logged js |}.

Definition set_seenJobs (js : JobScraper) (m : gmap string bool) : JobScraper := {|
  jobs := jobs js; fresherKeywords := fresherKeywords js; remoteKeywords := remoteKeywords js;
  excludeKeywords := excludeKeywords js; jobTitles := jobTitles js;
  seenJobs := m; logged := logged js |}.

Definition set_logged (js : JobScraper) (l : list LogEntry) : JobScraper := {|
  jobs := jobs js; fresherKeywords := fresherKeywords js; remoteKeywords := remoteKeywords js;
  excludeKeywords := excludeKeywords js; jobTitles := jobTitles js;
  seenJobs := seenJobs js; logged := l |}.

(** One step of goroutine [i]. *)
Definition step (c : Config) (i : nat) : Config :=
  match goroutines c !! i with
  | None => c
  | Some (AtLock job) =>
      if mutex c then c
      else {| shared := shared c; mutex := true;
              goroutines := <[i := AtCheck job]> (goroutines c) |}
  | Some (AtCheck job) =>
      let jobID := generateJobID (Title job) (Company job) in
      if negb (seen (shared c) jobID)
      then {| shared := shared c; mutex := mutex c;
              goroutines := <[i := AtAppend job jobID]> (goroutines c) |}
      else {| shared := shared c; mutex := mutex c;
              goroutines := <[i := AtUnlock job false]> (goroutines c) |}
  | Some (AtAppend job jobID) =>
      {| shared := set_jobs (shared c) (jobs (shared c) ++ [set_ID job jobID]);
         mutex := mutex c;
         goroutines := <[i := AtMark job jobID]> (goroutines c) |}
  | Some (AtMark job jobID) =>
      {| shared := set_seenJobs (shared c) (<[jobID := true]> (seenJobs (shared c)));
         mutex := mutex c;
         goroutines := <[i := AtLog job]> (goroutines c) |}
  | Some (AtLog job) =>
      {| shared := set_logged (shared c)
                     (logged (shared c) ++ [LogFound (Title job) (Company job) (Platform job)]);
         mutex := mutex c;
         goroutines := <[i := AtUnlock job true]> (goroutines c) |}
  | Some (AtUnlock job added) =>
      {| shared := shared c; mutex := false;
         goroutines := <[i := Done job added]> (goroutines c) |}
  | Some (Done _ _) => c
  end.

(** A schedule is the list of the goroutines picked, in order. *)
Definition run (c : Config) (schedule : list nat) : Config := foldl step c schedule.

(** One goroutine per job, each about to call [addJob]. *)
Definition start (js : JobScraper) (jobs : list RemoteJob) : Config :=
  {| shared := js; mutex := false; goroutines := AtLock <$> jobs |}.

Definition is_done (p : pc) : bool :=
  match p with Done _ _ => true | _ => false end.

Definition has_added (p : pc) : bool :=
  match p with Done _ true => true | _ => false end.

(** A goroutine that holds the mutex. *)
Definition in_cs (p : pc) : bool :=
  match p with
  | AtCheck _ | AtAppend _ _ | AtMark _ _ | AtLog _ | AtUnlock _ _ => true
  | AtLock _ | Done _ _ => false
  end.

(** The job a goroutine was started with. *)
Definition job_at (p : pc) : RemoteJob :=
  match p with
  | AtLock job | AtCheck job | AtAppend job _ | AtMark job _ | AtLog job
  | AtUnlock job _ | Done job _ => job
  end.

(** The result of a goroutine that has returned. *)
Definition done_of (p : pc) : option (RemoteJob * bool) :=
  match p with Done job added => Some (job, added) | _ => None end.

(** What the shared state is while the holder of the mutex is at [p], in
    terms of the state [base] it found when it took the mutex. *)
Definition cs_ok (base sh : JobScraper) (p : pc) : Prop :=
  match p with
  | AtCheck job => sh = base
  | AtAppend job k => k = jobID job /\ seen base k = false /\ sh = base
  | AtMark job k =>
      k = jobID job /\ seen base k = false
      /\ sh = set_jobs base (jobs base ++ [set_ID job k])
  | AtLog job =>
      seen base (jobID job) = false
      /\ sh = set_seenJobs (set_jobs base (jobs base ++ [set_ID job (jobID job)]))
                (<[jobID job := true]> (seenJobs base))
  | AtUnlock job added => added = admitted base job /\ sh = addJob base job
  | AtLock _ | Done _ _ => False
  end.

(** The mutex at work, over the state [base] left by the calls that have
    returned: while it is held, exactly one goroutine is inside [addJob];
    while it is free, none is and the shared state is [base]. *)
Definition cs_inv (base : JobScraper) (c : Config) : Prop :=
  if mutex c then
    exists i p, goroutines c !! i = Some p /\ cs_ok base (shared c) p
      /\ forall j q, goroutines c !! j = Some q -> j <> i -> in_cs q = false
  else
    shared c = base
    /\ forall j q, goroutines c !! j = Some q -> in_cs q = false.

(** The calls that have returned are the calls of some sequential history
    [hist] (the order in which they took the mutex), with the outcomes they
    have in that order. *)
Definition linearized (js0 : JobScraper) (c : Config) : Prop :=
  exists hist : list RemoteJob,
    omap done_of (goroutines c) ≡ₚ outcomes js0 hist
    /\ cs_inv (foldl addJob js0 hist) c.

(** The steps a goroutine has left. *)
Definition remaining (p : pc) : nat :=
  match p with
  | AtLock _ => 6 | AtCheck _ => 5 | AtAppend _ _ => 4 | AtMark _ _ => 3
  | AtLog _ => 2 | AtUnlock _ _ => 1 | Done _ _ => 0
  end.

Definition measure (c : Config) : nat := sum_list (remaining <$> goroutines c).

(** All goroutines have returned ([wg.Wait()] is over). *)
Definition finished (c : Config) : bool := forallb is_done (goroutines c).

End Concurrent.

(** ** Goroutines calling [addJob] of [4jobswithnotification.go]

    The same program with one more statement, [js.newJobsCount++], between
    the write to [seenJobs] and [log.Printf]. *)

Module Concurrent4.

Inductive pc : Type :=
  | AtLock (job : RemoteJob)                     (* js.jobsMutex.Lock() *)
  | AtCheck (job : RemoteJob)                    (* jobID := ...; if !js.seenJobs[jobID] *)
  | AtAppend (job : RemoteJob) (jobID : string)  (* job.ID = jobID; js.jobs = append(js.jobs, job) *)
  | AtMark (job : RemoteJob) (jobID : string)    (* js.seenJobs[jobID] = true *)
  | AtCount (job : RemoteJob)                    (* js.newJobsCount++ *)
  | AtLog (job : RemoteJob)                      (* log.Printf(...) *)
  | AtUnlock (job : RemoteJob) (added : bool)    (* the deferred js.jobsMutex.Unlock() *)
  | Done (job : RemoteJob) (added : bool).       (* returned *)

Record Config : Type := {
  shared : Notify4.JobScraper4;
  mutex : bool;              (* true while [jobsMutex] is held *)
  goroutines : list pc
}.

Definition set_base (js : Notify4.JobScraper4) (b : JobScraper) : Notify4.JobScraper4 := {|
  Notify4.base := b; Notify4.newJobsCount := Notify4.newJobsCount js |}.

(** One step of goroutine [i]. *)
Definition step (c : Config) (i : nat) : Config :=
  match goroutines c !! i with
  | None => c
  | Some (AtLock job) =>
      if mutex c then c
      else {| shared := shared c; mutex := true;
              goroutines := <[i := AtCheck job]> (goroutines c) |}
  | Some (AtCheck job) =>
      let jobID := generateJobID (Title job) (Company job) in
      if negb (seen (Notify4.base (shared c)) jobID)
      then {| shared := shared c; mutex := mutex c;
              goroutines := <[i := AtAppend job jobID]> (goroutines c) |}
      else {| shared := shared c; mutex := mutex c;
              goroutines := <[i := AtUnlock job false]> (goroutines c) |}
  | Some (AtAppend job jobID) =>
      {| shared :=
           set_base (shared c)
             (Concurrent.set_jobs (Notify4.base (shared c))
                (jobs (Notify4.base (shared c)) ++ [set_ID job jobID]));
         mutex := mutex c;
         goroutines := <[i := AtMark job jobID]> (goroutines c) |}
  | Some (AtMark job jobID) =>
      {| shared :=
           set_base (shared c)
             (Concurrent.set_seenJobs (Notify4.base (shared c))
                (<[jobID := true]> (seenJobs (Notify4.base (shared c)))));
         mutex := mutex c;
         goroutines := <[i := AtCount job]> (goroutines c) |}
  | Some (AtCount job) =>
      {| shared := {| Notify4.base := Notify4.base (shared c);
                      Notify4.newJobsCount := S (Notify4.newJobsCount (shared c)) |};
         mutex := mutex c;
         goroutines := <[i := AtLog job]> (goroutines c) |}
  | Some (AtLog job) =>
      {| shared :=
           set_base (shared c)
             (Concurrent.set_logged (Notify4.base (shared c))
                (logged (Notify4.base (shared c))
                 ++ [LogFound (Title job) (Company job) (Platform job)]));
         mutex := mutex c;
         goroutines := <[i := AtUnlock job true]> (goroutines c) |}
  | Some (AtUnlock job added) =>
      {| shared := shared c; mutex := false;
         goroutines := <[i := Done job added]> (goroutines c) |}
  | Some (Done _ _) => c
  end.

(** A schedule is the list of the goroutines picked, in order. *)
Definition run (c : Config) (schedule : list nat) : Config := foldl step c schedule.

(** One goroutine per job, each about to call [addJob]. *)
Definition start (js : Notify4.JobScraper4) (jobs : list RemoteJob) : Config :=
  {| shared := js; mutex := false; goroutines := AtLock <$> jobs |}.

Definition is_done (p : pc) : bool :=
  match p with Done _ _ => true | _ => false end.

Definition has_added (p : pc) : bool :=
  match p with Done _ true => true | _ => false end.

(** All goroutines have returned. *)
Definition finished (c : Config) : bool := forallb is_done (goroutines c).

(** A goroutine that has incremented [newJobsCount]. *)
Definition counted (p : pc) : bool :=
  match p with AtLog _ | AtUnlock _ true | Done _ true => true | _ => false end.

(** The steps a goroutine has left. *)
Definition remaining (p : pc) : nat :=
  match p with
  | AtLock _ => 7 | AtCheck _ => 6 | AtAppend _ _ => 5 | AtMark _ _ => 4
  | AtCount _ => 3 | AtLog _ => 2 | AtUnlock _ _ => 1 | Done _ _ => 0
  end.

Definition measure (c : Config) : nat := sum_list (remaining <$> goroutines c).

(** The run as the fields shared with [7advanced_remote_scraper.go] see it:
    the increment of the counter is no step for them. *)
Definition erase_pc (p : pc) : Concurrent.pc :=
  match p with
  | AtLock job => Concurrent.AtLock job
  | AtCheck job => Concurrent.AtCheck job
  | AtAppend job k => Concurrent.AtAppend job k
  | AtMark job k => Concurrent.AtMark job k
  | AtCount job => Concurrent.AtLog job
  | AtLog job => Concurrent.AtLog job
  | AtUnlock job added => Concurrent.AtUnlock job added
  | Done job added => Concurrent.Done job added
  end.

Definition erase (c : Config) : Concurrent.Config := {|
  Concurrent.shared := Notify4.base (shared c);
  Concurrent.mutex := mutex c;
  Concurrent.goroutines := erase_pc <$> goroutines c
|}.

End Concurrent4.

(** The number of elements of [l] that satisfy [f]. *)
Definition count_if {A : Type} (f : A -> bool) (l : list A) : nat :=
  length (List.filter f l).

(** ** Reference definitions the code is compared with *)

(** The jobs a sequence of [addJob] calls keeps: each job whose identity has
    not occurred before, with its [ID] filled in. *)
Fixpoint first_occurrences (ids : list string) (l : list RemoteJob) : list RemoteJob :=
  match l with
  | [] => []
  | job :: l' =>
      if bool_decide (jobID job ∈ ids) then first_occurrences ids l'
      else set_ID job (jobID job) :: first_occurrences (jobID job :: ids) l'
  end.

(** The normalisation the specification describes for the identity:
    lowercase, non-alphanumeric characters removed, white space collapsed. *)
Definition is_alnum (c : ascii) : bool :=
  let n := nat_of_ascii c in
  ((48 <=? n)%nat && (n <=? 57)%nat) || ((65 <=? n)%nat && (n <=? 90)%nat)
  || ((97 <=? n)%nat && (n <=? 122)%nat).

Fixpoint spec_words (s : string) (pending_space : bool) : string :=
  match s with
  | EmptyString => EmptyString
  | String c s' =>
      if is_space c then spec_words s' true
      else if is_alnum c then
        (if pending_space then String " "%char (String c (spec_words s' false))
         else String c (spec_words s' false))
      else spec_words s' pending_space
  end.

Definition spec_normalize (s : string) : string :=
  spec_words (ToLower (TrimSpace s)) false.

(** [sub] occurs in [s]. *)
Definition Substring (sub s : string) : Prop :=
  exists pre post, s = pre +:+ sub +:+ post.

(** The whole of [s] is in the language of [r]. *)
Fixpoint full_match (r : regex) (s : string) : bool :=
  match s with
  | EmptyString => nullable r
  | String c s' => full_match (der c r) s'
  end.

(** Phrasings of little or no experience that the patterns of [isFresherJob]
    match. *)
Definition accepted_phrases : list string :=
  ["0 years"; "0-1 year"; "0-2 years"; "0 2 years"; "02 years";
   "entry level"; "entry-level"; "entrylevel";
   "new grad"; "new-grad"; "newgrad";
   "no experience"; "no-experience"; "noexperience";
   "recent graduate"; "recent-graduate"].

(** Those of them that the three patterns of [6fresher_remote_scraper.go]
    match. *)
Definition Fresher6_accepted_phrases : list string :=
  ["0 years"; "0-1 year"; "0-2 years"; "0 2 years"; "02 years";
   "entry level"; "entry-level"; "entrylevel";
   "new grad"; "new-grad"; "newgrad"].

(** A text of ASCII bytes (below 128).  On such a text Go's
    [strings.ToLower] lowers the letters [A-Z] byte by byte and keeps every
    other byte, as [ToLower] does; on other texts it also lowers the other
    Unicode letters and rewrites invalid UTF-8. *)
Fixpoint is_ascii (s : string) : bool :=
  match s with
  | EmptyString => true
  | String c s' => (nat_of_ascii c <? 128)%nat && is_ascii s'
  end.

(** [generateJobID] byte by byte: an upper-case letter becomes lower-case, a
    space becomes an underscore, every other byte stays. *)
Definition id_byte (c : ascii) : ascii :=
  if decide (c = " "%char) then "_"%char else lower_byte c.

Fixpoint map_bytes (f : ascii -> ascii) (s : string) : string :=
  match s with
  | EmptyString => EmptyString
  | String c s' => String (f c) (map_bytes f s')
  end.

(** A job with the given platform, title and company, and nothing else. *)
Definition job_of (platform title company : string) : RemoteJob := {|
  ID := ""; Platform := platform; Title := title; Company := company;
  Location := ""; Description := ""; Salary := ""; PostedDate := "";
  JobType := ""; Experience := ""; Tags := []; IsRemote := true; IsFresher := true;
  URL := ""; ApplyURL := "" |}.



(** The state [addJob] keeps: the identities of the accumulated jobs are
    pairwise distinct, and they are the keys of [seenJobs], all set to true. *)
Definition consistent (js : JobScraper) : Prop :=
  NoDup (ID <$> jobs js)
  /\ dom (seenJobs js) = list_to_set (ID <$> jobs js)
  /\ (forall k, seen js k = true <-> k ∈ ID <$> jobs js).

(** The first job of [l] with the identity [k]. *)
Definition first_with (k : string) (l : list RemoteJob) : option RemoteJob :=
  List.find (fun job => bool_decide (jobID job = k)) l.




(** * Properties *)

(** ** Byte strings *)

Example ToLower_ex : ToLower "Junior DEV (0-2 Years)" = "junior dev (0-2 years)".
Proof. reflexivity. Qed.

Example Contains_ex :
  Contains "senior software engineer" "senior" = true
  /\ Contains "junior engineer" "senior" = false
  /\ Contains "" "" = true.
Proof. repeat split; reflexivity. Qed.

Example ReplaceAll_ex :
  ReplaceAll "a  b c" " " "_" = "a__b_c" /\ ReplaceAll "aaa" "aa" "b" = "ba".
Proof. split; reflexivity. Qed.

Example TrimSpace_ex : TrimSpace "   Acme  Corp  " = "Acme  Corp".
Proof. reflexivity. Qed.

Section string_facts.
Implicit Types (s t u p : string) (c : ascii).

Lemma sapp_nil_l s : "" +:+ s = s.
Proof. reflexivity. Qed.

Lemma sapp_cons c s t : String c s +:+ t = String c (s +:+ t).
Proof. reflexivity. Qed.

Lemma sapp_nil_r s : s +:+ "" = s.
Proof. induction s as [|c s IH]; [done|]. by rewrite sapp_cons, IH. Qed.

Lemma sapp_assoc s t u : (s +:+ t) +:+ u = s +:+ (t +:+ u).
Proof. induction s as [|c s IH]; [done|]. by rewrite !sapp_cons, IH. Qed.

Lemma sapp_length s t : String.length (s +:+ t) = String.length s + String.length t.
Proof. induction s as [|c s IH]; [done|]. rewrite sapp_cons. simpl. by rewrite IH. Qed.

Lemma sapp_eq_nil s t : s +:+ t = "" -> s = "" /\ t = "".
Proof. destruct s; [done|]. by rewrite sapp_cons. Qed.

Lemma HasPrefix_spec s p : HasPrefix s p = true <-> exists post, s = p +:+ post.
Proof.
  revert s. induction p as [|a p IH]; intros s; simpl.
  - split; [intros _; by exists s | done].
  - destruct s as [|b s].
    + split; [done | intros [post H]; by rewrite sapp_cons in H].
    + destruct (decide (a = b)) as [->|Hne].
      * rewrite IH. split; intros [post H]; exists post.
        -- by rewrite sapp_cons, H.
        -- rewrite sapp_cons in H. congruence.
      * split; [done | intros [post H]; rewrite sapp_cons in H; congruence].
Qed.

Lemma Contains_spec s sub : Contains s sub = true <-> Substring sub s.
Proof.
  unfold Substring. induction s as [|c s IH].
  - simpl. destruct (HasPrefix "" sub) eqn:Hp.
    + apply HasPrefix_spec in Hp as [post Hp]. split; [intros _|done].
      exists "", post. by rewrite sapp_nil_l.
    + split; [done|]. intros (pre & post & H). symmetry in H.
      apply sapp_eq_nil in H as [-> H].
      apply sapp_eq_nil in H as [-> ->]. done.
  - cbn [Contains]. destruct (HasPrefix (String c s) sub) eqn:Hp.
    + apply HasPrefix_spec in Hp as [post Hp]. split; [intros _|done].
      exists "", post. by rewrite sapp_nil_l.
    + rewrite IH. split.
      * intros (pre & post & ->). exists (String c pre), post. by rewrite sapp_cons.
      * intros (pre & post & H). destruct pre as [|c' pre].
        -- rewrite sapp_nil_l in H.
           assert (HasPrefix (String c s) sub = true) as Hp'
             by (apply HasPrefix_spec; eauto).
           congruence.
        -- rewrite sapp_cons in H. injection H as -> ->. eauto.
Qed.

Lemma Contains_false s sub : Contains s sub = false <-> ~ Substring sub s.
Proof. rewrite <-Contains_spec. by destruct (Contains s sub). Qed.

Lemma ToLower_length s : String.length (ToLower s) = String.length s.
Proof. induction s; simpl; congruence. Qed.

Lemma lower_byte_idemp c : lower_byte (lower_byte c) = lower_byte c.
Proof. by destruct c as [[] [] [] [] [] [] [] []]. Qed.

Lemma ToLower_idemp s : ToLower (ToLower s) = ToLower s.
Proof. induction s; simpl; [done|]. by rewrite lower_byte_idemp, IHs. Qed.

Lemma ToLower_app s t : ToLower (s +:+ t) = ToLower s +:+ ToLower t.
Proof. induction s as [|c s IH]; [done|]. rewrite sapp_cons. simpl. by rewrite IH. Qed.

End string_facts.

(** Scanning a keyword list for a substring of [s]. *)
Lemma scan_keywords_true (s : string) (kws : list string) :
  existsb (fun keyword => Contains s keyword) kws = true
  <-> exists kw, kw ∈ kws /\ Substring kw s.
Proof.
  rewrite existsb_exists. split; intros (kw & Hin & H); exists kw.
  - by rewrite list_elem_of_In, <-Contains_spec.
  - by rewrite <-list_elem_of_In, Contains_spec.
Qed.

Lemma scan_keywords_false (s : string) (kws : list string) :
  existsb (fun keyword => Contains s keyword) kws = false
  <-> forall kw, kw ∈ kws -> ~ Substring kw s.
Proof.
  rewrite <-not_true_iff_false, scan_keywords_true. split.
  - intros Hno kw Hin Hsub. apply Hno. by exists kw.
  - intros Hall (kw & Hin & Hsub). by apply (Hall kw).
Qed.

(** ** The pattern matcher agrees with the language of the pattern *)

Section regexp_facts.
Implicit Types (r : regex) (s : string) (c : ascii).

Lemma Void_inv s : Matches Void s -> False.
Proof. inversion 1. Qed.

Lemma Eps_inv s : Matches Eps s -> s = "".
Proof. by inversion 1. Qed.

Lemma Chars_inv cs s : Matches (Chars cs) s -> exists c, s = String c "" /\ c ∈ cs.
Proof. inversion 1; subst; eauto. Qed.

Lemma Cat_inv r1 r2 s :
  Matches (Cat r1 r2) s -> exists s1 s2, s = s1 +:+ s2 /\ Matches r1 s1 /\ Matches r2 s2.
Proof. inversion 1; subst; eauto. Qed.

Lemma Alt_inv r1 r2 s : Matches (Alt r1 r2) s -> Matches r1 s \/ Matches r2 s.
Proof. inversion 1; subst; auto. Qed.

Lemma nullable_spec r : nullable r = true <-> Matches r "".
Proof.
  induction r as [| |cs|r1 IH1 r2 IH2|r1 IH1 r2 IH2|r IH]; simpl.
  - split; [done | intros H; by apply Void_inv in H].
  - split; [intros _; constructor | done].
  - split; [done | intros H; by apply Chars_inv in H as (c & ? & _)].
  - rewrite andb_true_iff, IH1, IH2. split.
    + intros [H1 H2]. by apply (MCat _ _ "" "").
    + intros H. apply Cat_inv in H as (s1 & s2 & Heq & H1 & H2).
      symmetry in Heq. apply sapp_eq_nil in Heq as [-> ->]. done.
  - rewrite orb_true_iff, IH1, IH2. split.
    + intros [H|H]; [by apply MAltL | by apply MAltR].
    + apply Alt_inv.
  - split; [intros _; constructor | done].
Qed.

Lemma star_cons_inv r c s :
  Matches (Star r) (String c s) ->
  exists s1 s2, s = s1 +:+ s2 /\ Matches r (String c s1) /\ Matches (Star r) s2.
Proof.
  intros H. remember (Star r) as r' eqn:Hr. remember (String c s) as t eqn:Ht.
  revert s Ht.
  induction H as [| | | | | |r0 s1 s2 H1 _ H2 IH2]; intros u Ht; try discriminate.
  injection Hr as ->. destruct s1 as [|c1 s1].
  - rewrite sapp_nil_l in Ht. by apply IH2.
  - rewrite sapp_cons in Ht. injection Ht as -> <-. eauto.
Qed.

Lemma der_spec c r s : Matches (der c r) s <-> Matches r (String c s).
Proof.
  revert s. induction r as [| |cs|r1 IH1 r2 IH2|r1 IH1 r2 IH2|r IH]; intros s; simpl.
  - split; intros H; by apply Void_inv in H.
  - split; intros H; [by apply Void_inv in H | by apply Eps_inv in H].
  - case_bool_decide as Hc.
    + split; intros H.
      * apply Eps_inv in H as ->. by constructor.
      * apply Chars_inv in H as (c' & [= -> ->] & _). constructor.
    + split; intros H; [by apply Void_inv in H|].
      apply Chars_inv in H as (c' & [= -> ->] & ?). done.
  - assert (Matches (Cat (der c r1) r2) s -> Matches (Cat r1 r2) (String c s)) as Hfwd.
    { intros H. apply Cat_inv in H as (s1 & s2 & -> & H1 & H2).
      rewrite <-sapp_cons. constructor; [by apply IH1 | done]. }
    assert (Matches (Cat r1 r2) (String c s) ->
            Matches (Cat (der c r1) r2) s \/ (nullable r1 = true /\ Matches (der c r2) s))
      as Hbwd.
    { intros H. apply Cat_inv in H as (s1 & s2 & Heq & H1 & H2).
      destruct s1 as [|c1 s1].
      - rewrite sapp_nil_l in Heq. subst s2. right.
        split; [by apply nullable_spec | by apply IH2].
      - rewrite sapp_cons in Heq. injection Heq as -> ->. left.
        constructor; [by apply IH1 | done]. }
    destruct (nullable r1) eqn:Hn.
    + split.
      * intros H. apply Alt_inv in H as [H|H]; [by apply Hfwd|].
        apply (MCat _ _ "" (String c s)); [by apply nullable_spec | by apply IH2].
      * intros H. destruct (Hbwd H) as [H'|[_ H']]; [by apply MAltL | by apply MAltR].
    + split; [done|]. intros H. destruct (Hbwd H) as [H'|[? _]]; done.
  - split; intros H; apply Alt_inv in H as [H|H];
      (apply MAltL; by apply IH1) || (apply MAltR; by apply IH2).
  - split.
    + intros H. apply Cat_inv in H as (s1 & s2 & -> & H1 & H2).
      rewrite <-sapp_cons. constructor; [by apply IH | done].
    + intros H. apply star_cons_inv in H as (s1 & s2 & -> & H1 & H2).
      constructor; [by apply IH | done].
Qed.

Lemma match_prefix_spec r s :
  match_prefix r s = true <-> exists mid post, s = mid +:+ post /\ Matches r mid.
Proof.
  revert r. induction s as [|c s IH]; intros r; cbn [match_prefix].
  - rewrite orb_false_r, nullable_spec. split.
    + intros H. by exists "", "".
    + intros (mid & post & Heq & H). symmetry in Heq.
      apply sapp_eq_nil in Heq as [-> _]. done.
  - rewrite orb_true_iff, nullable_spec, IH. split.
    + intros [H|(mid & post & -> & H)].
      * by exists "", (String c s).
      * exists (String c mid), post. split; [done | by apply der_spec].
    + intros (mid & post & Heq & H). destruct mid as [|c1 mid]; [by left|].
      rewrite sapp_cons in Heq. injection Heq as -> ->. right.
      exists mid, post. split; [done | by apply der_spec].
Qed.

(** [MatchString] finds exactly the texts with a matching piece. *)
Lemma MatchString_spec r s :
  MatchString r s = true
  <-> exists pre mid post, s = pre +:+ mid +:+ post /\ Matches r mid.
Proof.
  induction s as [|c s IH]; cbn [MatchString].
  - rewrite orb_false_r, match_prefix_spec. split.
    + intros (mid & post & -> & H). by exists "", mid, post.
    + intros (pre & mid & post & Heq & H). symmetry in Heq.
      apply sapp_eq_nil in Heq as [-> Heq]. apply sapp_eq_nil in Heq as [-> ->].
      by exists "", "".
  - rewrite orb_true_iff, match_prefix_spec, IH. split.
    + intros [(mid & post & Heq & H)|(pre & mid & post & -> & H)].
      * by exists "", mid, post.
      * by exists (String c pre), mid, post.
    + intros (pre & mid & post & Heq & H). destruct pre as [|c1 pre].
      * left. by exists mid, post.
      * rewrite sapp_cons in Heq. injection Heq as -> ->. right. by exists pre, mid, post.
Qed.

End regexp_facts.

Lemma full_match_spec (r : regex) (s : string) : full_match r s = true <-> Matches r s.
Proof.
  revert r. induction s as [|c s IH]; intros r; simpl.
  - apply nullable_spec.
  - by rewrite IH, der_spec.
Qed.

Lemma scan_patterns_true (ps : list regex) (s : string) :
  existsb (fun pattern => MatchString pattern s) ps = true
  <-> exists p, p ∈ ps /\ exists pre mid post, s = pre +:+ mid +:+ post /\ Matches p mid.
Proof.
  rewrite existsb_exists. split; intros (p & Hin & H); exists p.
  - by rewrite list_elem_of_In, <-MatchString_spec.
  - by rewrite <-list_elem_of_In, MatchString_spec.
Qed.

(** ** The classifier *)

(** The three stages of [isFresherJob], one after the other. *)
Lemma isFresherJob_stages (js : JobScraper) (title description : string) :
  isFresherJob js title description =
    let combined := ToLower (title +:+ " " +:+ description) in
    negb (existsb (fun keyword => Contains combined keyword) (excludeKeywords js))
    && (existsb (fun keyword => Contains combined keyword) (fresherKeywords js)
        || existsb (fun pattern => MatchString pattern combined) patterns).
Proof.
  unfold isFresherJob. cbv zeta.
  by repeat match goal with |- context [existsb ?f ?l] => destruct (existsb f l) end.
Qed.

Lemma isFresherJob_excluded (js : JobScraper) (title description kw : string) :
  kw ∈ excludeKeywords js ->
  Substring kw (ToLower (title +:+ " " +:+ description)) ->
  isFresherJob js title description = false.
Proof.
  intros Hin Hsub. unfold isFresherJob. cbv zeta.
  assert (existsb (fun keyword => Contains (ToLower (title +:+ " " +:+ description)) keyword)
            (excludeKeywords js) = true) as ->; [|done].
  apply scan_keywords_true. eauto.
Qed.

(** The same holds for the classifier of [6fresher_remote_scraper.go]. *)
Lemma Fresher6_exclusion_wins (fjs : Fresher6.FresherJobScraper) (title description kw : string) :
  kw ∈ Fresher6.excludeKeywords fjs ->
  Substring kw (ToLower (title +:+ " " +:+ description)) ->
  Fresher6.isFresherJob fjs title description = false.
Proof.
  intros Hin Hsub. unfold Fresher6.isFresherJob. cbv zeta.
  assert (existsb (fun keyword => Contains (ToLower (title +:+ " " +:+ description)) keyword)
            (Fresher6.excludeKeywords fjs) = true) as ->; [|done].
  apply scan_keywords_true. eauto.
Qed.

(** C1: when a phrase of [excludeKeywords] occurs in the lowercased text
    [title + " " + description], [isFresherJob] returns false, whatever else
    the text contains (a fresher keyword, a match of a pattern); in
    [7advanced_remote_scraper.go] and in [6fresher_remote_scraper.go], for
    every scraper. *)
Theorem exclusion_wins (title description kw : string) :
  Substring kw (ToLower (title +:+ " " +:+ description)) ->
  (forall js : JobScraper,
     kw ∈ excludeKeywords js -> isFresherJob js title description = false)
  /\ (forall fjs : Fresher6.FresherJobScraper,
        kw ∈ Fresher6.excludeKeywords fjs ->
        Fresher6.isFresherJob fjs title description = false).
Proof.
  intros Hsub. split.
  - intros js Hin. by apply (isFresherJob_excluded js title description kw).
  - intros fjs Hin. by apply (Fresher6_exclusion_wins fjs title description kw).
Qed.

(** A text with the exclude keyword "senior", the fresher keywords "junior"
    and "entry level" and a match of the first pattern ("0-2 years"). *)
Lemma exclusion_wins_witness :
  isFresherJob NewJobScraper "Senior Engineer (junior welcome)" "entry level, 0-2 years" = false
  /\ Fresher6.isFresherJob Fresher6.NewFresherJobScraper
       "Senior Engineer (junior welcome)" "entry level, 0-2 years" = false.
Proof.
  destruct (exclusion_wins "Senior Engineer (junior welcome)" "entry level, 0-2 years" "senior")
    as [H7 H6].
  - exists "", " engineer (junior welcome) entry level, 0-2 years". reflexivity.
  - split.
    + apply H7. apply list_elem_of_In. simpl. tauto.
    + apply H6. apply list_elem_of_In. simpl. tauto.
Defined.

Lemma isRemoteJob_iff (js : JobScraper) (title location description : string) :
  isRemoteJob js title location description = true
  <-> exists kw, kw ∈ remoteKeywords js
        /\ Substring kw (ToLower (title +:+ " " +:+ location +:+ " " +:+ description)).
Proof.
  unfold isRemoteJob. cbv zeta. rewrite <-scan_keywords_true.
  by destruct (existsb _ _).
Qed.

Lemma Fresher6_isRemoteJob_spec (fjs : Fresher6.FresherJobScraper)
    (title location description : string) :
  Fresher6.isRemoteJob fjs title location description = true
  <-> exists kw, kw ∈ Fresher6.remoteKeywords fjs
        /\ Substring kw (ToLower (title +:+ " " +:+ location +:+ " " +:+ description)).
Proof.
  unfold Fresher6.isRemoteJob. cbv zeta. rewrite <-scan_keywords_true.
  by destruct (existsb _ _).
Qed.

(** C8: [isRemoteJob] returns true exactly when a phrase of [remoteKeywords]
    occurs in the lowercased text [title + " " + location + " " +
    description]; in [7advanced_remote_scraper.go] and in
    [6fresher_remote_scraper.go], for every scraper.  Its result depends on
    no other field of the scraper (so neither on the exclude keywords nor on
    the fresher keywords), and a text that the fresher check rejects for an
    exclude keyword is still remote. *)
Theorem isRemoteJob_spec (title location description : string) :
  (forall js : JobScraper,
     (isRemoteJob js title location description = true
      <-> exists kw, kw ∈ remoteKeywords js
            /\ Substring kw (ToLower (title +:+ " " +:+ location +:+ " " +:+ description)))
     /\ (forall js', remoteKeywords js' = remoteKeywords js ->
           isRemoteJob js' title location description
           = isRemoteJob js title location description))
  /\ (forall fjs : Fresher6.FresherJobScraper,
        (Fresher6.isRemoteJob fjs title location description = true
         <-> exists kw, kw ∈ Fresher6.remoteKeywords fjs
               /\ Substring kw
                    (ToLower (title +:+ " " +:+ location +:+ " " +:+ description)))
        /\ (forall fjs', Fresher6.remoteKeywords fjs' = Fresher6.remoteKeywords fjs ->
              Fresher6.isRemoteJob fjs' title location description
              = Fresher6.isRemoteJob fjs title location description))
  /\ (isRemoteJob NewJobScraper "Senior Architect" "Remote" "10+ years" = true
      /\ isFresherJob NewJobScraper "Senior Architect" "10+ years" = false)
  /\ (Fresher6.isRemoteJob Fresher6.NewFresherJobScraper "Senior Architect" "Remote" "10+ years"
      = true
      /\ Fresher6.isFresherJob Fresher6.NewFresherJobScraper "Senior Architect" "10+ years"
         = false).
Proof.
  split; [|split; [|done]].
  - intros js. split; [apply isRemoteJob_iff|].
    intros js' Heq. unfold isRemoteJob. by rewrite Heq.
  - intros fjs. split; [apply Fresher6_isRemoteJob_spec|].
    intros fjs' Heq. unfold Fresher6.isRemoteJob. by rewrite Heq.
Qed.

(** "anywhere" is a remote keyword of both scrapers; "virtual" is one of
    [7advanced_remote_scraper.go] only. *)
Lemma isRemoteJob_spec_witness :
  isRemoteJob NewJobScraper "Junior Developer" "Anywhere in Europe" "" = true
  /\ Fresher6.isRemoteJob Fresher6.NewFresherJobScraper
       "Junior Developer" "Anywhere in Europe" "" = true
  /\ isRemoteJob NewJobScraper "Junior Developer" "Virtual team" "" = true
  /\ Fresher6.isRemoteJob Fresher6.NewFresherJobScraper "Junior Developer" "Virtual team" ""
     = false.
Proof.
  destruct (isRemoteJob_spec "Junior Developer" "Anywhere in Europe" "") as (H7 & H6 & _).
  split; [|split; [|split; reflexivity]].
  - apply (proj1 (H7 NewJobScraper)). exists "anywhere". split.
    + apply list_elem_of_In. simpl. tauto.
    + exists "junior developer ", " in europe ". reflexivity.
  - apply (proj1 (H6 Fresher6.NewFresherJobScraper)). exists "anywhere". split.
    + apply list_elem_of_In. simpl. tauto.
    + exists "junior developer ", " in europe ". reflexivity.
Defined.

(** Every phrase of [accepted_phrases] is matched, as a whole, by a pattern. *)
Lemma accepted_phrases_match (phrase : string) :
  phrase ∈ accepted_phrases -> exists p, p ∈ patterns /\ Matches p phrase.
Proof.
  intros Hin. apply list_elem_of_In in Hin.
  assert (existsb (fun p => full_match p phrase) patterns = true) as H.
  { simpl in Hin.
    repeat (destruct Hin as [<-|Hin]; [vm_compute; reflexivity|]). done. }
  apply existsb_exists in H as (p & Hp & H).
  exists p. split; [by apply list_elem_of_In | by apply full_match_spec].
Qed.

Lemma Fresher6_accepted_phrases_match (phrase : string) :
  phrase ∈ Fresher6_accepted_phrases -> exists p, p ∈ Fresher6.patterns /\ Matches p phrase.
Proof.
  intros Hin. apply list_elem_of_In in Hin.
  assert (existsb (fun p => full_match p phrase) Fresher6.patterns = true) as H.
  { simpl in Hin.
    repeat (destruct Hin as [<-|Hin]; [vm_compute; reflexivity|]). done. }
  apply existsb_exists in H as (p & Hp & H).
  exists p. split; [by apply list_elem_of_In | by apply full_match_spec].
Qed.

(** When neither an exclude keyword nor a fresher keyword occurs, the five
    patterns decide. *)
Lemma isFresherJob_patterns (js : JobScraper) (title description : string) :
  let combined := ToLower (title +:+ " " +:+ description) in
  (forall kw, kw ∈ excludeKeywords js -> ~ Substring kw combined) ->
  (forall kw, kw ∈ fresherKeywords js -> ~ Substring kw combined) ->
  (isFresherJob js title description = true
   <-> exists p, p ∈ patterns
         /\ exists pre mid post, combined = pre +:+ mid +:+ post /\ Matches p mid)
  /\ (forall phrase, phrase ∈ accepted_phrases -> Substring phrase combined ->
        isFresherJob js title description = true).
Proof.
  intros combined Hex Hfr.
  apply scan_keywords_false in Hex. apply scan_keywords_false in Hfr.
  assert (isFresherJob js title description
          = existsb (fun pattern => MatchString pattern combined) patterns) as Heq.
  { rewrite isFresherJob_stages. cbv zeta. fold combined. by rewrite Hex, Hfr. }
  rewrite Heq. split; [apply scan_patterns_true|].
  intros phrase Hin (pre & post & Hsub). apply scan_patterns_true.
  destruct (accepted_phrases_match phrase Hin) as (p & Hp & Hm).
  exists p. split; [done|]. by exists pre, phrase, post.
Qed.

(** The classifier of [6fresher_remote_scraper.go] decides by its three
    patterns in the same way; it has no pattern for "no experience" and
    none for "recent graduate". *)
Lemma Fresher6_patterns_decide (fjs : Fresher6.FresherJobScraper) (title description : string) :
  let combined := ToLower (title +:+ " " +:+ description) in
  (forall kw, kw ∈ Fresher6.excludeKeywords fjs -> ~ Substring kw combined) ->
  (forall kw, kw ∈ Fresher6.fresherKeywords fjs -> ~ Substring kw combined) ->
  (Fresher6.isFresherJob fjs title description = true
   <-> exists p, p ∈ Fresher6.patterns
         /\ exists pre mid post, combined = pre +:+ mid +:+ post /\ Matches p mid)
  /\ (forall phrase, phrase ∈ Fresher6_accepted_phrases -> Substring phrase combined ->
        Fresher6.isFresherJob fjs title description = true).
Proof.
  intros combined Hex Hfr.
  apply scan_keywords_false in Hex. apply scan_keywords_false in Hfr.
  assert (Fresher6.isFresherJob fjs title description
          = existsb (fun pattern => MatchString pattern combined) Fresher6.patterns) as Heq.
  { unfold Fresher6.isFresherJob. cbv zeta. fold combined. rewrite Hex, Hfr.
    by destruct (existsb _ Fresher6.patterns). }
  rewrite Heq. split; [apply scan_patterns_true|].
  intros phrase Hin (pre & post & Hsub). apply scan_patterns_true.
  destruct (Fresher6_accepted_phrases_match phrase Hin) as (p & Hp & Hm).
  exists p. split; [done|]. by exists pre, phrase, post.
Qed.

(** C6, as the code has it: when no exclude keyword and no fresher keyword
    of the scraper occurs in the lowercased text, [isFresherJob] accepts
    exactly when a piece of the text is in the language of one of its
    patterns: five patterns in [7advanced_remote_scraper.go], the first three
    of them in [6fresher_remote_scraper.go].  In particular a text with one
    of the [accepted_phrases] ("0-2 years", "0 2 years", "entry level",
    "new grad", "no experience", ...) is accepted by the first scraper, and
    a text with one of the [Fresher6_accepted_phrases] (the same without
    those on "no experience" and "recent graduate") by the second, which
    rejects "no-experience needed"; "0 to 2 years" is rejected by both. *)
Theorem patterns_decide (title description : string) :
  let combined := ToLower (title +:+ " " +:+ description) in
  (forall js : JobScraper,
     (forall kw, kw ∈ excludeKeywords js -> ~ Substring kw combined) ->
     (forall kw, kw ∈ fresherKeywords js -> ~ Substring kw combined) ->
     (isFresherJob js title description = true
      <-> exists p, p ∈ patterns
            /\ exists pre mid post, combined = pre +:+ mid +:+ post /\ Matches p mid)
     /\ (forall phrase, phrase ∈ accepted_phrases -> Substring phrase combined ->
           isFresherJob js title description = true))
  /\ (forall fjs : Fresher6.FresherJobScraper,
        (forall kw, kw ∈ Fresher6.excludeKeywords fjs -> ~ Substring kw combined) ->
        (forall kw, kw ∈ Fresher6.fresherKeywords fjs -> ~ Substring kw combined) ->
        (Fresher6.isFresherJob fjs title description = true
         <-> exists p, p ∈ Fresher6.patterns
               /\ exists pre mid post, combined = pre +:+ mid +:+ post /\ Matches p mid)
        /\ (forall phrase, phrase ∈ Fresher6_accepted_phrases -> Substring phrase combined ->
              Fresher6.isFresherJob fjs title description = true))
  /\ patterns = Fresher6.patterns ++ [pat_no_experience; pat_recent_graduate]
  /\ (isFresherJob NewJobScraper "Clerk" "no-experience needed" = true
      /\ Fresher6.isFresherJob Fresher6.NewFresherJobScraper "Clerk" "no-experience needed"
         = false)
  /\ (isFresherJob NewJobScraper "0 to 2 years" "" = false
      /\ Fresher6.isFresherJob Fresher6.NewFresherJobScraper "0 to 2 years" "" = false).
Proof.
  intros combined. split; [|split; [|split; [reflexivity|split; split; reflexivity]]].
  - intros js. apply isFresherJob_patterns.
  - intros fjs. apply Fresher6_patterns_decide.
Qed.

(** "0 2 years" is matched by the first pattern, in both scrapers. *)
Lemma patterns_decide_witness :
  isFresherJob NewJobScraper "Data Analyst" "0 2 years of work" = true
  /\ Fresher6.isFresherJob Fresher6.NewFresherJobScraper "Data Analyst" "0 2 years of work"
     = true.
Proof.
  destruct (patterns_decide "Data Analyst" "0 2 years of work") as (H7 & H6 & _).
  split.
  - apply (H7 NewJobScraper).
    + apply scan_keywords_false. reflexivity.
    + apply scan_keywords_false. reflexivity.
    + exists pat_years. split; [apply list_elem_of_In; simpl; tauto|].
      exists "data analyst ", "0 2 years", " of work". split; [reflexivity|].
      apply full_match_spec. reflexivity.
  - apply (H6 Fresher6.NewFresherJobScraper).
    + apply scan_keywords_false. reflexivity.
    + apply scan_keywords_false. reflexivity.
    + exists pat_years. split; [apply list_elem_of_In; simpl; tauto|].
      exists "data analyst ", "0 2 years", " of work". split; [reflexivity|].
      apply full_match_spec. reflexivity.
Defined.

(** C6 as stated fails on "0 to 2 years": the text has no exclude keyword
    and no fresher keyword, and [isFresherJob] rejects it in both scrapers,
    because the first pattern allows one white-space or dash and one digit
    between "0" and "years", not the word "to".  It also fails on
    "no experience" for the scraper of [6fresher_remote_scraper.go], which
    has no pattern for it: "no-experience needed" has no exclude keyword and
    no fresher keyword and is rejected there (and accepted by the scraper of
    [7advanced_remote_scraper.go]). *)
Lemma zero_to_two_years_rejected :
  (let combined := ToLower ("0 to 2 years" +:+ " " +:+ "") in
   (forall kw, kw ∈ excludeKeywords NewJobScraper -> ~ Substring kw combined)
   /\ (forall kw, kw ∈ fresherKeywords NewJobScraper -> ~ Substring kw combined)
   /\ (forall kw, kw ∈ Fresher6.excludeKeywords Fresher6.NewFresherJobScraper ->
         ~ Substring kw combined)
   /\ (forall kw, kw ∈ Fresher6.fresherKeywords Fresher6.NewFresherJobScraper ->
         ~ Substring kw combined)
   /\ Substring "0 to 2 years" combined
   /\ isFresherJob NewJobScraper "0 to 2 years" "" = false
   /\ Fresher6.isFresherJob Fresher6.NewFresherJobScraper "0 to 2 years" "" = false)
  /\ (let combined := ToLower ("Clerk" +:+ " " +:+ "no-experience needed") in
      (forall kw, kw ∈ Fresher6.excludeKeywords Fresher6.NewFresherJobScraper ->
         ~ Substring kw combined)
      /\ (forall kw, kw ∈ Fresher6.fresherKeywords Fresher6.NewFresherJobScraper ->
            ~ Substring kw combined)
      /\ Substring "no-experience" combined
      /\ Fresher6.isFresherJob Fresher6.NewFresherJobScraper "Clerk" "no-experience needed"
         = false
      /\ isFresherJob NewJobScraper "Clerk" "no-experience needed" = true).
Proof.
  cbv zeta. split; [split; [|split; [|split; [|split; [|split; [|split]]]]]
                   |split; [|split; [|split; [|split]]]];
    try (apply scan_keywords_false; reflexivity); try reflexivity.
  - exists "", " ". reflexivity.
  - exists "clerk ", " needed". reflexivity.
Qed.

Example Fresher6_no_experience :
  Fresher6.isFresherJob Fresher6.NewFresherJobScraper "Clerk" "no-experience" = false
  /\ isFresherJob NewJobScraper "Clerk" "no-experience" = true.
Proof. split; reflexivity. Qed.

(** ** The identity of a job *)

Lemma lower_byte_space (c : ascii) : lower_byte c = " "%char <-> c = " "%char.
Proof. destruct c as [[] [] [] [] [] [] [] []]; by vm_compute. Qed.

Lemma ReplaceAll_space (s : string) :
  ReplaceAll s " " "_"
  = map_bytes (fun c => if decide (c = " "%char) then "_"%char else c) s.
Proof.
  unfold ReplaceAll. induction s as [|c s IH]; [done|].
  cbn [replace_from map_bytes HasPrefix].
  change (String.length " " - 1) with 0. rewrite IH.
  destruct (decide (" "%char = c)) as [<-|Hne].
  - by rewrite decide_True.
  - by rewrite decide_False.
Qed.

Lemma map_bytes_compose (f g : ascii -> ascii) (s : string) :
  map_bytes f (map_bytes g s) = map_bytes (fun c => f (g c)) s.
Proof. induction s; simpl; congruence. Qed.

Lemma map_bytes_ext (f g : ascii -> ascii) (s : string) :
  (forall c, f c = g c) -> map_bytes f s = map_bytes g s.
Proof. intros H. induction s; simpl; congruence. Qed.

Lemma map_bytes_length (f : ascii -> ascii) (s : string) :
  String.length (map_bytes f s) = String.length s.
Proof. induction s; simpl; congruence. Qed.

Lemma ToLower_map_bytes (s : string) : ToLower s = map_bytes lower_byte s.
Proof. induction s; simpl; congruence. Qed.

Lemma normalize_bytes (s : string) :
  ReplaceAll (ToLower s) " " "_" = map_bytes id_byte s.
Proof.
  rewrite ReplaceAll_space, ToLower_map_bytes, map_bytes_compose.
  apply map_bytes_ext. intros c. unfold id_byte.
  destruct (decide (c = " "%char)) as [->|Hne]; [done|].
  rewrite decide_False; [done|]. by rewrite lower_byte_space.
Qed.

Lemma generateJobID_bytes (title company : string) :
  generateJobID title company
  = map_bytes id_byte company +:+ "_" +:+ map_bytes id_byte title.
Proof. unfold generateJobID. by rewrite !normalize_bytes. Qed.







(** C5, as the code has it: the identity is the lowercased company with its
    spaces replaced by underscores, an underscore, and the title treated in
    the same way, so two inputs that [strings.ToLower] makes equal receive
    the same identity.  On ASCII input every upper-case letter is lowered,
    every space is replaced by an underscore and every other byte is kept:
    no byte is dropped and no run is collapsed.  A run of spaces or a
    punctuation mark is therefore not ignored. *)
Theorem identity_up_to_case (t1 c1 t2 c2 : string) :
  (ToLower c1 = ToLower c2 -> ToLower t1 = ToLower t2 ->
   generateJobID t1 c1 = generateJobID t2 c2)
  /\ (is_ascii c1 = true -> is_ascii t1 = true ->
      generateJobID t1 c1 = map_bytes id_byte c1 +:+ "_" +:+ map_bytes id_byte t1
      /\ String.length (generateJobID t1 c1) = String.length c1 + 1 + String.length t1)
  /\ generateJobID "Junior  Dev" "Acme" <> generateJobID "Junior Dev" "Acme"
  /\ generateJobID "Dev" "Acme, Inc." <> generateJobID "Dev" "Acme Inc".
Proof.
  split; [|split; [|split; by vm_compute]].
  - intros Hc Ht. unfold generateJobID. by rewrite Hc, Ht.
  - intros _ _. split; [apply generateJobID_bytes|].
    rewrite generateJobID_bytes, !sapp_length, !map_bytes_length. simpl. lia.
Qed.

Lemma identity_up_to_case_witness :
  generateJobID "JUNIOR Developer" "TechCorp" = generateJobID "junior developer" "techcorp"
  /\ generateJobID "JUNIOR Developer" "TechCorp" = "techcorp_junior_developer"
  /\ String.length (generateJobID "JUNIOR Developer" "TechCorp") = 8 + 1 + 16.
Proof.
  destruct (identity_up_to_case "JUNIOR Developer" "TechCorp" "junior developer" "techcorp")
    as (Hcase & Hbytes & _).
  split; [apply Hcase; reflexivity|]. apply Hbytes; reflexivity.
Defined.

(** C5 as stated fails: inputs that are equal up to white-space runs or up
    to non-alphanumeric characters (equal under [spec_normalize]) receive
    different identities. *)
Lemma identity_keeps_runs_and_punctuation :
  spec_normalize "Junior  Dev" = spec_normalize "Junior Dev"
  /\ generateJobID "Junior  Dev" "Acme" <> generateJobID "Junior Dev" "Acme"
  /\ spec_normalize "Acme, Inc." = spec_normalize "Acme Inc"
  /\ generateJobID "Dev" "Acme, Inc." <> generateJobID "Dev" "Acme Inc".
Proof. repeat split; by vm_compute. Qed.

(** ** [addJob] *)

Section addJob_facts.
Implicit Types (js : JobScraper) (job : RemoteJob) (k : string).

Lemma addJob_seen js job : seen js (jobID job) = true -> addJob js job = js.
Proof. unfold addJob, jobID. by intros ->. Qed.

Lemma addJob_unseen js job :
  seen js (jobID job) = false ->
  jobs (addJob js job) = jobs js ++ [set_ID job (jobID job)]
  /\ seenJobs (addJob js job) = <[jobID job := true]> (seenJobs js)
  /\ logged (addJob js job)
     = logged js ++ [LogFound (Title job) (Company job) (Platform job)].
Proof. unfold addJob, jobID. by intros ->. Qed.

Lemma seen_after_addJob js job k :
  seen (addJob js job) k = true <-> k = jobID job \/ seen js k = true.
Proof.
  destruct (seen js (jobID job)) eqn:Hs.
  - rewrite addJob_seen by done. split; [by right|]. by intros [->|?].
  - unfold seen at 1. destruct (addJob_unseen js job Hs) as (_ & -> & _).
    destruct (decide (k = jobID job)) as [->|Hne].
    + rewrite lookup_insert_eq. split; [by left|done].
    + rewrite lookup_insert_ne by done. fold (seen js k).
      split; [by right|]. by intros [?|?].
Qed.

Lemma jobs_addJob js job :
  jobs (addJob js job)
  = jobs js ++ (if admitted js job then [set_ID job (jobID job)] else []).
Proof.
  unfold admitted. destruct (seen js (jobID job)) eqn:Hs; simpl.
  - rewrite addJob_seen by done. by rewrite app_nil_r.
  - by destruct (addJob_unseen js job Hs) as (-> & _).
Qed.

Lemma ID_set_ID job k : ID (set_ID job k) = k.
Proof. done. Qed.

Lemma consistent_New : consistent NewJobScraper.
Proof.
  split; [constructor|]. split; [set_solver|].
  intros k. unfold seen. simpl. rewrite lookup_empty. simpl. set_solver.
Qed.

Lemma consistent_addJob js job : consistent js -> consistent (addJob js job).
Proof.
  intros (Hnd & Hdom & Hseen).
  destruct (seen js (jobID job)) eqn:Hs; [by rewrite addJob_seen|].
  assert (jobID job ∉ ID <$> jobs js) as Hfresh.
  { rewrite <-Hseen. by rewrite Hs. }
  destruct (addJob_unseen js job Hs) as (Hj & Hm & _).
  split; [|split].
  - rewrite Hj, fmap_app. simpl. apply NoDup_app. split; [done|]. split.
    + intros k Hk ->%list_elem_of_singleton. done.
    + apply NoDup_singleton.
  - rewrite Hm, Hj, fmap_app, dom_insert_L, list_to_set_app_L, Hdom. simpl. set_solver.
  - intros k. rewrite seen_after_addJob, Hseen, Hj, fmap_app, elem_of_app. simpl.
    rewrite list_elem_of_singleton. naive_solver.
Qed.

Lemma consistent_foldl js (l : list RemoteJob) :
  consistent js -> consistent (foldl addJob js l).
Proof.
  revert js. induction l as [|job l IH]; intros js H; simpl; [done|].
  apply IH. by apply consistent_addJob.
Qed.

Lemma jobs_foldl_prefix js (l : list RemoteJob) :
  jobs js `prefix_of` jobs (foldl addJob js l).
Proof.
  revert js. induction l as [|job l IH]; intros js; simpl; [done|].
  etrans; [|apply IH]. rewrite jobs_addJob. by apply prefix_app_r.
Qed.

(** The accumulated jobs are the first occurrences of their identities. *)
Lemma jobs_foldl_first_occurrences js (ids : list string) (l : list RemoteJob) :
  (forall k, seen js k = true <-> k ∈ ids) ->
  jobs (foldl addJob js l) = jobs js ++ first_occurrences ids l.
Proof.
  revert js ids. induction l as [|job l IH]; intros js ids Hids; simpl.
  - by rewrite app_nil_r.
  - destruct (seen js (jobID job)) eqn:Hs.
    + rewrite addJob_seen by done. rewrite bool_decide_true by (by apply Hids).
      by apply IH.
    + rewrite bool_decide_false by (rewrite <-Hids; by rewrite Hs).
      rewrite (IH _ (jobID job :: ids)).
      * destruct (addJob_unseen js job Hs) as (-> & _). by rewrite <-app_assoc.
      * intros k. rewrite seen_after_addJob, elem_of_cons, Hids. done.
Qed.

Lemma first_occurrences_first (ids : list string) (l : list RemoteJob) (r : RemoteJob) :
  r ∈ first_occurrences ids l ->
  (ID r ∉ ids)
  /\ exists job, first_with (ID r) l = Some job /\ r = set_ID job (jobID job).
Proof.
  revert ids. induction l as [|job l IH]; intros ids; simpl; [by intros ?%elem_of_nil|].
  unfold first_with. cbn [List.find].
  case_bool_decide as Hin.
  - intros (Hr & job' & Hf & ->)%IH. split; [done|].
    rewrite bool_decide_false by (intros Heq; rewrite Heq in Hin; done).
    eauto.
  - intros [->|Hr]%elem_of_cons.
    + rewrite ID_set_ID. split; [done|]. rewrite bool_decide_true by done. eauto.
    + apply IH in Hr as (Hr & job' & Hf & ->). rewrite not_elem_of_cons in Hr.
      destruct Hr as [Hne Hr]. split; [done|].
      rewrite bool_decide_false by done. eauto.
Qed.

Lemma count_ID_zero (l : list RemoteJob) k :
  k ∉ ID <$> l -> count_if (fun r => bool_decide (ID r = k)) l = 0.
Proof.
  unfold count_if. induction l as [|r l IH]; [done|].
  rewrite fmap_cons, not_elem_of_cons. intros [Hne Hk]. simpl.
  rewrite bool_decide_false by done. by apply IH.
Qed.

Lemma count_ID_one (l : list RemoteJob) k :
  NoDup (ID <$> l) -> k ∈ ID <$> l -> count_if (fun r => bool_decide (ID r = k)) l = 1.
Proof.
  induction l as [|r l IH]; [by intros _ ?%elem_of_nil|].
  rewrite fmap_cons, NoDup_cons, elem_of_cons. intros [Hr Hnd] Hk.
  unfold count_if. simpl. case_bool_decide as Heq.
  - simpl. f_equal. apply count_ID_zero. by rewrite <-Heq.
  - destruct Hk as [->|Hk]; [done|]. by apply IH.
Qed.

(** In a consistent state an identity that has been seen is the identity of
    exactly one accumulated job, and one that has not been seen of none. *)
Lemma consistent_count js k :
  consistent js ->
  count_if (fun r => bool_decide (ID r = k)) (jobs js) = if seen js k then 1 else 0.
Proof.
  intros (Hnd & _ & Hseen). destruct (seen js k) eqn:Hs.
  - apply count_ID_one; [done|]. by apply Hseen.
  - apply count_ID_zero. rewrite <-Hseen. by rewrite Hs.
Qed.

End addJob_facts.

(** The counter of [4jobswithnotification.go] follows: the shared fields
    change as under [addJob] of [7advanced_remote_scraper.go], and the
    counter grows by one exactly when the job is appended. *)
Lemma Notify4_addJob_base (js : Notify4.JobScraper4) (job : RemoteJob) :
  Notify4.base (Notify4.addJob js job) = addJob (Notify4.base js) job
  /\ Notify4.newJobsCount (Notify4.addJob js job)
     = Notify4.newJobsCount js + (if admitted (Notify4.base js) job then 1 else 0).
Proof.
  unfold Notify4.addJob, addJob, admitted, jobID.
  destruct (seen (Notify4.base js) _); simpl; split; (done || lia).
Qed.

Lemma Notify4_addJob_idempotent (js : Notify4.JobScraper4) (j1 j2 : RemoteJob) :
  jobID j1 = jobID j2 ->
  Notify4.addJob (Notify4.addJob js j1) j2 = Notify4.addJob js j1.
Proof.
  intros Hid. unfold Notify4.addJob at 1.
  destruct (Notify4_addJob_base js j1) as [-> _].
  fold (jobID j2). rewrite (proj2 (seen_after_addJob _ j1 (jobID j2))); [done|by left].
Qed.

Lemma addJob_twice (js : JobScraper) (j1 j2 : RemoteJob) :
  jobID j1 = jobID j2 ->
  addJob (addJob js j1) j2 = addJob js j1
  /\ admitted (addJob js j1) j2 = false
  /\ jobs (addJob (addJob js j1) j2)
     = jobs js ++ (if admitted js j1 then [set_ID j1 (jobID j1)] else [])
  /\ (consistent js ->
      count_if (fun r => bool_decide (ID r = jobID j1)) (jobs (addJob (addJob js j1) j2))
      = 1).
Proof.
  intros Hid.
  assert (seen (addJob js j1) (jobID j2) = true) as Hs.
  { apply seen_after_addJob. by left. }
  rewrite (addJob_seen _ j2 Hs). split; [done|]. split; [|split].
  - unfold admitted. by rewrite Hs.
  - apply jobs_addJob.
  - intros Hc. rewrite (consistent_count _ (jobID j1) (consistent_addJob js j1 Hc)).
    by rewrite Hid, Hs.
Qed.

(** C4: [addJob] is idempotent on the identity, in
    [7advanced_remote_scraper.go] and in [4jobswithnotification.go].  After
    a call with a job, a second call with a job of the same company and
    title identity leaves the whole state as it is (the job list, the
    seen-set, the log and, in [4jobswithnotification.go], the counter of new
    jobs) and is not an admission; over the two calls the job list grows by
    the first job exactly when its identity had not been seen before (and
    the counter by one exactly then), and in a consistent state exactly one
    job with that identity is in the list afterwards. *)
Theorem addJob_idempotent (j1 j2 : RemoteJob) :
  jobID j1 = jobID j2 ->
  (forall js : JobScraper,
     addJob (addJob js j1) j2 = addJob js j1
     /\ admitted (addJob js j1) j2 = false
     /\ jobs (addJob (addJob js j1) j2)
        = jobs js ++ (if admitted js j1 then [set_ID j1 (jobID j1)] else [])
     /\ (consistent js ->
         count_if (fun r => bool_decide (ID r = jobID j1)) (jobs (addJob (addJob js j1) j2))
         = 1))
  /\ (forall js : Notify4.JobScraper4,
        let once := Notify4.addJob js j1 in
        let twice := Notify4.addJob once j2 in
        twice = once
        /\ admitted (Notify4.base once) j2 = false
        /\ jobs (Notify4.base twice)
           = jobs (Notify4.base js)
             ++ (if admitted (Notify4.base js) j1 then [set_ID j1 (jobID j1)] else [])
        /\ seenJobs (Notify4.base twice) = <[jobID j1 := true]> (seenJobs (Notify4.base js))
        /\ Notify4.newJobsCount twice
           = Notify4.newJobsCount js + (if admitted (Notify4.base js) j1 then 1 else 0)
        /\ (consistent (Notify4.base js) ->
            count_if (fun r => bool_decide (ID r = jobID j1)) (jobs (Notify4.base twice))
            = 1)).
Proof.
  intros Hid. split; [intros js; by apply addJob_twice|].
  intros js once twice.
  assert (twice = once) as Htwice by (by apply Notify4_addJob_idempotent).
  destruct (Notify4_addJob_base js j1) as [Hbase Hcount]. fold once in Hbase, Hcount.
  destruct (addJob_twice (Notify4.base js) j1 j2 Hid) as (Hsame & Hnot & Hjobs & Hone).
  rewrite Hsame in Hjobs, Hone.
  rewrite Htwice, Hbase. split; [done|]. split; [done|]. split; [done|].
  split; [|split; [by rewrite Hcount|done]].
  destruct (seen (Notify4.base js) (jobID j1)) eqn:Hs.
  - rewrite addJob_seen by done. symmetry. apply insert_id.
    unfold seen in Hs. by destruct (seenJobs (Notify4.base js) !! jobID j1) as [[]|].
  - by destruct (addJob_unseen (Notify4.base js) j1 Hs) as (_ & -> & _).
Qed.

Lemma addJob_idempotent_witness :
  let js := NewJobScraper in
  let js4 := {| Notify4.base := NewJobScraper; Notify4.newJobsCount := 0 |} in
  let j1 := job_of "Indeed" "Junior Engineer" "Acme" in
  let j2 := job_of "LinkedIn" "junior engineer" "ACME" in
  (addJob (addJob js j1) j2 = addJob js j1
   /\ admitted (addJob js j1) j2 = false
   /\ jobs (addJob (addJob js j1) j2) = [set_ID j1 "acme_junior_engineer"]
   /\ count_if (fun r => bool_decide (ID r = "acme_junior_engineer"))
        (jobs (addJob (addJob js j1) j2)) = 1)
  /\ (Notify4.addJob (Notify4.addJob js4 j1) j2 = Notify4.addJob js4 j1
      /\ jobs (Notify4.base (Notify4.addJob (Notify4.addJob js4 j1) j2))
         = [set_ID j1 "acme_junior_engineer"]
      /\ Notify4.newJobsCount (Notify4.addJob (Notify4.addJob js4 j1) j2) = 1).
Proof.
  intros js js4 j1 j2.
  destruct (addJob_idempotent j1 j2 eq_refl) as [H7 H4].
  destruct (H7 js) as (Hsame & Hnot & Hjobs & Hone).
  destruct (H4 js4) as (Hsame4 & _ & Hjobs4 & _ & Hcount4 & _).
  split.
  - split; [exact Hsame|]. split; [exact Hnot|]. split; [exact Hjobs|].
    exact (Hone consistent_New).
  - split; [exact Hsame4|]. split; [exact Hjobs4|exact Hcount4].
Defined.

Lemma consistent_empty (js : JobScraper) :
  jobs js = [] -> seenJobs js = ∅ -> consistent js.
Proof.
  intros Hj Hs. unfold consistent, seen. rewrite Hj, Hs. split; [constructor|].
  split; [set_solver|]. intros k. rewrite lookup_empty. simpl. set_solver.
Qed.

(** What a sequence of [addJob] calls keeps, from a state without jobs
    in which nothing has been seen. *)
Lemma addJob_invariant_from_empty (init : JobScraper) (l : list RemoteJob) :
  jobs init = [] -> seenJobs init = ∅ ->
  let js := foldl addJob init l in
  NoDup (ID <$> jobs js)
  /\ dom (seenJobs js) = list_to_set (ID <$> jobs js)
  /\ (forall k, seen js k = true <-> k ∈ ID <$> jobs js)
  /\ jobs js = first_occurrences [] l
  /\ (forall r, r ∈ jobs js ->
        exists job, first_with (ID r) l = Some job /\ r = set_ID job (jobID job))
  /\ (forall more, jobs js `prefix_of` jobs (foldl addJob js more)).
Proof.
  intros Hj Hs js.
  pose proof (consistent_empty init Hj Hs) as Hinit.
  destruct (consistent_foldl init l Hinit) as (Hnd & Hdom & Hseen).
  assert (jobs js = first_occurrences [] l) as Hfirst.
  { unfold js. rewrite (jobs_foldl_first_occurrences _ []); [by rewrite Hj|].
    intros k. destruct Hinit as (_ & _ & ->). by rewrite Hj. }
  repeat split; try done.
  - by apply Hseen.
  - by apply Hseen.
  - intros r Hr. rewrite Hfirst in Hr. by apply first_occurrences_first in Hr as [_ ?].
  - intros more. apply jobs_foldl_prefix.
Qed.

(** A sequence of calls of [addJob] of [4jobswithnotification.go]. *)
Lemma Notify4_foldl (js : Notify4.JobScraper4) (l : list RemoteJob) :
  Notify4.base (foldl Notify4.addJob js l) = foldl addJob (Notify4.base js) l
  /\ Notify4.newJobsCount (foldl Notify4.addJob js l)
     = Notify4.newJobsCount js + count_if snd (outcomes (Notify4.base js) l).
Proof.
  revert js. induction l as [|job l IH]; intros js.
  - simpl. unfold count_if. simpl. split; [done|lia].
  - cbn [foldl outcomes]. destruct (IH (Notify4.addJob js job)) as [-> ->].
    destruct (Notify4_addJob_base js job) as [-> ->]. split; [done|].
    unfold count_if. simpl. destruct (admitted (Notify4.base js) job); simpl; lia.
Qed.

Lemma count_admitted (js : JobScraper) (l : list RemoteJob) :
  length (jobs (foldl addJob js l)) = length (jobs js) + count_if snd (outcomes js l).
Proof.
  revert js. induction l as [|job l IH]; intros js.
  - unfold count_if. simpl. lia.
  - cbn [foldl outcomes]. rewrite IH, jobs_addJob, length_app.
    unfold count_if. simpl. destruct (admitted js job); simpl; lia.
Qed.

(** C9: after any sequence of [addJob] calls on a new scraper, the
    identities of the accumulated jobs are pairwise distinct, they are
    exactly the keys of [seenJobs] (each read as true), and the job kept
    under an identity is the first job of the sequence with that identity,
    with its [ID] filled in; calls that follow never replace or change a job
    already kept.  The same holds for [addJob] of
    [4jobswithnotification.go] from a scraper without jobs, with nothing
    seen and the counter at zero, whose counter is then the number of jobs
    kept. *)
Theorem addJob_invariant (l : list RemoteJob) :
  let js := foldl addJob NewJobScraper l in
  NoDup (ID <$> jobs js)
  /\ dom (seenJobs js) = list_to_set (ID <$> jobs js)
  /\ (forall k, seen js k = true <-> k ∈ ID <$> jobs js)
  /\ jobs js = first_occurrences [] l
  /\ (forall r, r ∈ jobs js ->
        exists job, first_with (ID r) l = Some job /\ r = set_ID job (jobID job))
  /\ (forall more, jobs js `prefix_of` jobs (foldl addJob js more))
  /\ (forall init : Notify4.JobScraper4,
        jobs (Notify4.base init) = [] -> seenJobs (Notify4.base init) = ∅ ->
        Notify4.newJobsCount init = 0 ->
        let js4 := foldl Notify4.addJob init l in
        NoDup (ID <$> jobs (Notify4.base js4))
        /\ dom (seenJobs (Notify4.base js4)) = list_to_set (ID <$> jobs (Notify4.base js4))
        /\ (forall k, seen (Notify4.base js4) k = true <-> k ∈ ID <$> jobs (Notify4.base js4))
        /\ jobs (Notify4.base js4) = first_occurrences [] l
        /\ (forall r, r ∈ jobs (Notify4.base js4) ->
              exists job, first_with (ID r) l = Some job /\ r = set_ID job (jobID job))
        /\ (forall more,
              jobs (Notify4.base js4)
                `prefix_of` jobs (Notify4.base (foldl Notify4.addJob js4 more)))
        /\ Notify4.newJobsCount js4 = length (jobs (Notify4.base js4))).
Proof.
  intros js.
  destruct (addJob_invariant_from_empty NewJobScraper l eq_refl eq_refl)
    as (H1 & H2 & H3 & H4 & H5 & H6).
  split; [done|]. split; [done|]. split; [done|]. split; [done|]. split; [done|].
  split; [done|].
  intros init Hj Hs Hn js4.
  destruct (Notify4_foldl init l) as [Hbase Hcount]. fold js4 in Hbase, Hcount.
  destruct (addJob_invariant_from_empty (Notify4.base init) l Hj Hs)
    as (G1 & G2 & G3 & G4 & G5 & G6).
  rewrite Hbase. split; [done|]. split; [done|]. split; [done|]. split; [done|].
  split; [done|]. split.
  - intros more. destruct (Notify4_foldl js4 more) as [-> _]. rewrite Hbase. apply G6.
  - rewrite Hcount, Hn, count_admitted, Hj. simpl. lia.
Qed.

(** The same job found on two platforms, and another job in between. *)
Lemma addJob_invariant_witness :
  let calls := [job_of "Indeed" "Junior Dev" "Acme"; job_of "Dice" "Intern" "Initech";
                job_of "LinkedIn" "junior dev" "ACME"] in
  jobs (foldl addJob NewJobScraper calls)
  = [set_ID (job_of "Indeed" "Junior Dev" "Acme") "acme_junior_dev";
     set_ID (job_of "Dice" "Intern" "Initech") "initech_intern"].
Proof.
  exact (proj1 (proj2 (proj2 (proj2 (addJob_invariant
    [job_of "Indeed" "Junior Dev" "Acme"; job_of "Dice" "Intern" "Initech";
     job_of "LinkedIn" "junior dev" "ACME"]))))).
Defined.

(** C10: [generateJobID] is not injective.  The company and the title are
    joined by the byte that also replaces spaces, so a word can move between
    the two, and an underscore in a title is read as a space; the second of
    two such listings is dropped by [addJob] as a duplicate. *)
Theorem generateJobID_collides :
  generateJobID "Junior Dev" "Acme" = generateJobID "Dev" "Acme Junior"
  /\ generateJobID "Junior_Dev" "Acme" = generateJobID "Junior Dev" "Acme"
  /\ (let first := job_of "Indeed" "Junior Dev" "Acme" in
      let second := job_of "Indeed" "Dev" "Acme Junior" in
      (Company first, Title first) <> (Company second, Title second)
      /\ jobs (addJob (addJob NewJobScraper first) second)
         = [set_ID first "acme_junior_dev"]
      /\ addJob (addJob NewJobScraper first) second = addJob NewJobScraper first)
  /\ (let first := job_of "Indeed" "Junior Dev" "Acme" in
      let second := job_of "Indeed" "Junior_Dev" "Acme" in
      Title first <> Title second
      /\ addJob (addJob NewJobScraper first) second = addJob NewJobScraper first).
Proof.
  cbv zeta. split; [reflexivity|]. split; [reflexivity|]. split; [split; [|split]|split].
  - by vm_compute.
  - rewrite addJob_seen; [reflexivity|]. apply seen_after_addJob. by left.
  - apply addJob_seen. apply seen_after_addJob. by left.
  - by vm_compute.
  - apply addJob_seen. apply seen_after_addJob. by left.
Qed.

(** ** Listings without a title or a company *)











(** ** Concurrent calls of [addJob] *)

Section concurrent_facts.
Import Concurrent.
Implicit Types (c : Config) (p q : pc) (l : list pc) (i j : nat) (init base : JobScraper).

Lemma omap_done_insert_none l i p p' :
  l !! i = Some p -> done_of p = None -> done_of p' = None ->
  omap done_of (<[i:=p']> l) = omap done_of l.
Proof.
  revert i. induction l as [|x l IH]; intros [|i] Hi Hp Hp'; simpl in *; try done.
  - injection Hi as ->. by rewrite Hp, Hp'.
  - change list_omap with (@omap list _). by rewrite (IH i).
Qed.

Lemma omap_done_insert_some l i p p' x :
  l !! i = Some p -> done_of p = None -> done_of p' = Some x ->
  omap done_of (<[i:=p']> l) ≡ₚ x :: omap done_of l.
Proof.
  revert i. induction l as [|y l IH]; intros [|i] Hi Hp Hp'; simpl in *; try done.
  - injection Hi as ->. by rewrite Hp, Hp'.
  - change list_omap with (@omap list _). destruct (done_of y) as [z|].
    + rewrite (IH i) by done. apply Permutation_swap.
    + by apply IH.
Qed.

Lemma job_at_insert l i p p' :
  l !! i = Some p -> job_at p' = job_at p -> job_at <$> <[i:=p']> l = job_at <$> l.
Proof.
  intros Hi Hj. rewrite list_fmap_insert, Hj. apply list_insert_id.
  by rewrite list_lookup_fmap, Hi.
Qed.

Lemma remaining_insert l i p p' :
  l !! i = Some p ->
  sum_list (remaining <$> <[i:=p']> l) + remaining p
  = sum_list (remaining <$> l) + remaining p'.
Proof.
  revert i. induction l as [|y l IH]; intros [|i] Hi; simpl in *; try done.
  - injection Hi as ->.
    generalize (sum_list (list_fmap pc nat remaining l)), (remaining p), (remaining p').
    intros; lia.
  - specialize (IH i Hi). change list_fmap with (@fmap list _).
    revert IH. generalize (sum_list (remaining <$> <[i:=p']> l)),
      (sum_list (remaining <$> l)), (remaining p), (remaining p'), (remaining y).
    intros; lia.
Qed.

Lemma outcomes_snoc init (hist : list RemoteJob) (job : RemoteJob) :
  outcomes init (hist ++ [job])
  = outcomes init hist ++ [(job, admitted (foldl addJob init hist) job)].
Proof. revert init. induction hist as [|x hist IH]; intros init; simpl; [done|]. by rewrite IH. Qed.

Lemma outcomes_fst init (hist : list RemoteJob) : fst <$> outcomes init hist = hist.
Proof. revert init. induction hist as [|x hist IH]; intros init; simpl; [done|]. by rewrite IH. Qed.

Lemma cs_inv_inside base c i p :
  cs_inv base c -> goroutines c !! i = Some p -> in_cs p = true ->
  mutex c = true /\ cs_ok base (shared c) p
  /\ forall j q, goroutines c !! j = Some q -> j <> i -> in_cs q = false.
Proof.
  unfold cs_inv. intros H Hi Hp. destruct (mutex c).
  - destruct H as (i0 & p0 & Hi0 & Hok & Hothers).
    destruct (decide (i = i0)) as [->|Hne].
    + rewrite Hi in Hi0. by injection Hi0 as <-.
    + rewrite (Hothers i p Hi Hne) in Hp. done.
  - destruct H as [_ Hnone]. rewrite (Hnone i p Hi) in Hp. done.
Qed.

Lemma cs_inv_move base c i p p' sh :
  goroutines c !! i = Some p ->
  (forall j q, goroutines c !! j = Some q -> j <> i -> in_cs q = false) ->
  cs_ok base sh p' ->
  cs_inv base {| shared := sh; mutex := true; goroutines := <[i:=p']> (goroutines c) |}.
Proof.
  intros Hi Hothers Hok. unfold cs_inv; simpl. exists i, p'. split; [|split; [done|]].
  - apply list_lookup_insert_eq. by eapply lookup_lt_Some.
  - intros j q Hj Hne. rewrite list_lookup_insert_ne in Hj by done. eauto.
Qed.

(** The three writes of the body make up [addJob]. *)
Lemma addJob_in_steps base (job : RemoteJob) :
  seen base (jobID job) = false ->
  set_logged
    (set_seenJobs (set_jobs base (jobs base ++ [set_ID job (jobID job)]))
       (<[jobID job := true]> (seenJobs base)))
    (logged base ++ [LogFound (Title job) (Company job) (Platform job)])
  = addJob base job.
Proof. intros Hs. unfold addJob. fold (jobID job). by rewrite Hs. Qed.

(** The goroutine at [Hi] is the holder of the mutex: what the invariant
    says about it. *)
Ltac holder Hcs Hi :=
  destruct (cs_inv_inside _ _ _ _ Hcs Hi eq_refl) as (Hm & Hok & Hothers);
  simpl in Hok.

(** A step inside [addJob] that returns nothing yet: the history stays. *)
Ltac same_history hist Hi :=
  exists hist; simpl;
  split; [by rewrite (omap_done_insert_none _ _ _ _ Hi)|];
  eapply cs_inv_move; [done|done|]; simpl.

(** Every step keeps the run linearized. *)
Lemma step_linearized init c i : linearized init c -> linearized init (step c i).
Proof.
  intros (hist & Hperm & Hcs). unfold step.
  destruct (goroutines c !! i) as [p|] eqn:Hi; [|by exists hist].
  destruct p as [job|job|job k|job k|job|job b|job b].
  - (* Lock *)
    destruct (mutex c) eqn:Hm; [by exists hist|].
    exists hist. simpl. split; [by rewrite (omap_done_insert_none _ _ _ _ Hi)|].
    unfold cs_inv in Hcs. rewrite Hm in Hcs. destruct Hcs as [Hsh Hnone].
    eapply cs_inv_move; [done| |done]. eauto.
  - (* the test of seenJobs *)
    holder Hcs Hi. fold (jobID job).
    destruct (seen (shared c) (jobID job)) eqn:Hs; simpl; rewrite Hm;
      same_history hist Hi; rewrite <-Hok.
    + split; [unfold admitted; by rewrite Hs|]. by rewrite addJob_seen.
    + done.
  - (* append *)
    holder Hcs Hi. destruct Hok as (-> & Hs & Hsh). simpl; rewrite Hm.
    same_history hist Hi. by rewrite Hsh.
  - (* seenJobs[jobID] = true *)
    holder Hcs Hi. destruct Hok as (-> & Hs & Hsh). simpl; rewrite Hm.
    same_history hist Hi. by rewrite Hsh.
  - (* log.Printf *)
    holder Hcs Hi. destruct Hok as (Hs & Hsh). simpl; rewrite Hm.
    same_history hist Hi. rewrite Hsh.
    split; [unfold admitted; by rewrite Hs|].
    by rewrite <-(addJob_in_steps _ job Hs).
  - (* Unlock: the call joins the history *)
    holder Hcs Hi. destruct Hok as (-> & Hsh).
    exists (hist ++ [job]). simpl. split.
    + rewrite outcomes_snoc, (omap_done_insert_some _ _ _ _ _ Hi) by done.
      rewrite Hperm. apply Permutation_cons_append.
    + unfold cs_inv; simpl. rewrite foldl_app. split; [done|].
      intros j q Hj. destruct (decide (j = i)) as [->|Hne].
      * rewrite list_lookup_insert_eq in Hj by (by eapply lookup_lt_Some).
        by injection Hj as <-.
      * rewrite list_lookup_insert_ne in Hj by done. eauto.
  - by exists hist.
Qed.

Lemma run_linearized init c (schedule : list nat) :
  linearized init c -> linearized init (run c schedule).
Proof.
  revert c. induction schedule as [|i schedule IH]; intros c H; [done|].
  apply IH. by apply step_linearized.
Qed.

Lemma start_linearized init (jobs : list RemoteJob) : linearized init (start init jobs).
Proof.
  exists []. split.
  - simpl. by induction jobs.
  - split; [done|]. simpl. intros j q Hj.
    apply list_lookup_fmap_Some in Hj as (job & -> & _). done.
Qed.

Lemma step_job_at c i : job_at <$> goroutines (step c i) = job_at <$> goroutines c.
Proof.
  unfold step. destruct (goroutines c !! i) as [p|] eqn:Hi; [|done].
  destruct p; repeat (match goal with |- context [if ?b then _ else _] => destruct b end);
    simpl; try done; by apply (job_at_insert _ _ _ _ Hi).
Qed.

Lemma run_job_at init (jobs : list RemoteJob) (schedule : list nat) :
  job_at <$> goroutines (run (start init jobs) schedule) = jobs.
Proof.
  assert (forall c, job_at <$> goroutines (run c schedule) = job_at <$> goroutines c) as H.
  { induction schedule as [|i schedule IH]; intros c; [done|].
    simpl. unfold run in IH. by rewrite IH, step_job_at. }
  rewrite H. simpl. rewrite <-list_fmap_compose. by apply list_fmap_id.
Qed.

Lemma finished_lookup c i p :
  finished c = true -> goroutines c !! i = Some p -> is_done p = true.
Proof.
  unfold finished. rewrite forallb_forall. intros H Hi. apply H.
  apply list_elem_of_In. by eapply list_elem_of_lookup_2.
Qed.

Lemma finished_all_results l :
  forallb is_done l = true -> length (omap done_of l) = length l.
Proof.
  induction l as [|p l IH]; [done|]. simpl. intros [Hp Hl]%andb_true_iff.
  destruct p; try done. simpl. change list_omap with (@omap list _). by rewrite IH.
Qed.

Lemma count_if_perm {A} (f : A -> bool) (l1 l2 : list A) :
  l1 ≡ₚ l2 -> count_if f l1 = count_if f l2.
Proof.
  unfold count_if. induction 1 as [|x l1 l2 _ IH|x y l|l1 l2 l3 _ IH1 _ IH2]; simpl.
  - done.
  - destruct (f x); simpl; congruence.
  - by destruct (f x), (f y).
  - congruence.
Qed.

Lemma count_has_added l : count_if has_added l = count_if snd (omap done_of l).
Proof.
  unfold count_if. induction l as [|p l IH]; [done|].
  destruct p as [| | | | | |job []]; simpl; change list_omap with (@omap list _);
    congruence.
Qed.

Lemma count_no_admission (rest : list RemoteJob) :
  count_if snd ((fun x => (x, false)) <$> rest) = 0.
Proof. unfold count_if. by induction rest. Qed.

Lemma count_if_snoc {A} (f : A -> bool) (xs : list A) (x : A) :
  count_if f (xs ++ [x]) = count_if f xs + (if f x then 1 else 0).
Proof.
  unfold count_if. rewrite List.filter_app, length_app. simpl. by destruct (f x).
Qed.

(** A step of a goroutine that is not waiting for a held mutex brings it
    closer to its return. *)
Lemma step_measure c i p :
  goroutines c !! i = Some p -> is_done p = false ->
  in_cs p = true \/ mutex c = false ->
  measure (step c i) < measure c.
Proof.
  intros Hi Hnd Hrun. unfold step, measure. rewrite Hi.
  destruct p as [job|job|job k|job k|job|job b|job b]; try done.
  - destruct Hrun as [?| ->]; [done|]. simpl.
    pose proof (remaining_insert _ _ _ (AtCheck job) Hi) as H. simpl in H. lia.
  - destruct (negb _); simpl.
    + pose proof (remaining_insert _ _ _ (AtAppend job (generateJobID (Title job) (Company job))) Hi) as H.
      simpl in H. lia.
    + pose proof (remaining_insert _ _ _ (AtUnlock job false) Hi) as H. simpl in H. lia.
  - simpl. pose proof (remaining_insert _ _ _ (AtMark job k) Hi) as H. simpl in H. lia.
  - simpl. pose proof (remaining_insert _ _ _ (AtLog job) Hi) as H. simpl in H. lia.
  - simpl. pose proof (remaining_insert _ _ _ (AtUnlock job true) Hi) as H. simpl in H. lia.
  - simpl. pose proof (remaining_insert _ _ _ (Done job b) Hi) as H. simpl in H. lia.
Qed.

Lemma unfinished_goroutine c :
  finished c = false -> exists i p, goroutines c !! i = Some p /\ is_done p = false.
Proof.
  unfold finished. generalize (goroutines c) as l.
  induction l as [|q l IH]; [done|]. simpl. destruct (is_done q) eqn:Hq.
  - intros (i & p & Hi & Hp)%IH. by exists (S i), p.
  - intros _. by exists 0, q.
Qed.

(** No deadlock: as long as some goroutine has not returned, some goroutine
    can make a step that counts. *)
Lemma step_progress init c :
  linearized init c -> finished c = false ->
  exists i, measure (step c i) < measure c.
Proof.
  intros (hist & _ & Hcs) Hfin. unfold cs_inv in Hcs.
  destruct (mutex c) eqn:Hm.
  - destruct Hcs as (i & p & Hi & Hok & _). exists i.
    apply (step_measure c i p Hi); destruct p; done || by left.
  - destruct Hcs as [_ Hnone].
    apply unfinished_goroutine in Hfin as (i & p & Hi & Hp). exists i.
    apply (step_measure c i p Hi Hp). by right.
Qed.

Lemma can_finish init c :
  linearized init c -> exists schedule, finished (run c schedule) = true.
Proof.
  remember (measure c) as n eqn:Hn. revert c Hn.
  induction (lt_wf n) as [n _ IH]. intros c -> Hlin.
  destruct (finished c) eqn:Hfin; [by exists []|].
  destruct (step_progress init c Hlin Hfin) as [i Hi].
  destruct (IH _ Hi (step c i) eq_refl (step_linearized _ _ _ Hlin)) as [schedule H].
  by exists (i :: schedule).
Qed.

End concurrent_facts.

(** Whatever has been scheduled so far, the goroutines can all be brought
    to their return. *)
Lemma every_schedule_can_finish (init : JobScraper) (workers : list RemoteJob)
    (schedule : list nat) :
  exists rest,
    Concurrent.finished
      (Concurrent.run (Concurrent.start init workers) (schedule ++ rest)) = true.
Proof.
  destruct (can_finish init (Concurrent.run (Concurrent.start init workers) schedule))
    as [rest H].
  - apply run_linearized, start_linearized.
  - exists rest. unfold Concurrent.run in *. by rewrite foldl_app.
Qed.

(** *** What a finished run leaves *)

Lemma same_identity_calls (init : JobScraper) (k : string) (job : RemoteJob)
    (rest : list RemoteJob) :
  jobID job = k -> Forall (fun x => jobID x = k) rest ->
  foldl addJob init (job :: rest) = addJob init job
  /\ outcomes init (job :: rest)
     = (job, negb (seen init k)) :: ((fun x => (x, false)) <$> rest).
Proof.
  intros Hk Hrest. simpl.
  assert (admitted init job = negb (seen init k)) as -> by (unfold admitted; by rewrite Hk).
  assert (seen (addJob init job) k = true) as Hseen.
  { apply seen_after_addJob. by left. }
  revert Hseen. generalize (addJob init job) as js.
  induction Hrest as [|x rest Hx _ IH]; intros js Hseen; [done|].
  simpl. rewrite addJob_seen by (by rewrite Hx).
  unfold admitted. rewrite Hx, Hseen. simpl.
  destruct (IH js Hseen) as [-> [= ->]]. done.
Qed.

Lemma count_if_insert {A} (f : A -> bool) (l : list A) (i : nat) (x y : A) :
  l !! i = Some x ->
  count_if f (<[i:=y]> l) + (if f x then 1 else 0)
  = count_if f l + (if f y then 1 else 0).
Proof.
  unfold count_if. revert i. induction l as [|z l IH]; intros [|i] Hi; simpl in *; try done.
  - injection Hi as ->. destruct (f x), (f y); simpl; lia.
  - specialize (IH i Hi). destruct (f z); simpl; lia.
Qed.

Lemma count_if_cons {A} (f : A -> bool) (x : A) (l : list A) :
  count_if f (x :: l) = (if f x then 1 else 0) + count_if f l.
Proof. unfold count_if. simpl. by destruct (f x). Qed.

Lemma sum_list_insert {A} (f : A -> nat) (l : list A) (i : nat) (x y : A) :
  l !! i = Some x ->
  sum_list (f <$> <[i:=y]> l) + f x = sum_list (f <$> l) + f y.
Proof.
  revert i. induction l as [|z l IH]; intros [|i] Hi; simpl in *; try done.
  - injection Hi as ->.
    generalize (sum_list (list_fmap A nat f l)), (f x), (f y). intros; lia.
  - specialize (IH i Hi). change list_fmap with (@fmap list _).
    revert IH. generalize (sum_list (f <$> <[i:=y]> l)), (sum_list (f <$> l)),
      (f x), (f y), (f z).
    intros; lia.
Qed.

Section finished_runs.
Import Concurrent.
Implicit Types (c : Config) (p q : pc) (l : list pc) (i j : nat) (init base : JobScraper).

Lemma finished_jobs l :
  forallb is_done l = true -> fst <$> omap done_of l = job_at <$> l.
Proof.
  induction l as [|p l IH]; [done|]. simpl. intros [Hp Hl]%andb_prop.
  destruct p; try done. simpl.
  change list_omap with (@omap list _). change list_fmap with (@fmap list _).
  by rewrite IH.
Qed.

Lemma finished_free base c :
  cs_inv base c -> finished c = true -> mutex c = false /\ shared c = base.
Proof.
  intros Hcs Hfin. unfold cs_inv in Hcs. destruct (mutex c).
  - destruct Hcs as (i & p & Hi & Hok & _).
    pose proof (finished_lookup _ _ _ Hfin Hi). by destruct p.
  - by destruct Hcs.
Qed.

(** A finished run has the state and the outcomes of its calls made one
    after the other, in some order. *)
Lemma finished_run_linearized init (workers : list RemoteJob) (schedule : list nat) :
  finished (run (start init workers) schedule) = true ->
  exists hist : list RemoteJob,
    hist ≡ₚ workers
    /\ shared (run (start init workers) schedule) = foldl addJob init hist
    /\ omap done_of (goroutines (run (start init workers) schedule)) ≡ₚ outcomes init hist
    /\ mutex (run (start init workers) schedule) = false.
Proof.
  intros Hfin.
  destruct (run_linearized init _ schedule (start_linearized init workers))
    as (hist & Hperm & Hcs).
  destruct (finished_free _ _ Hcs Hfin) as [Hm Hsh].
  exists hist. split; [|done].
  rewrite <-(outcomes_fst init hist), <-Hperm.
  unfold finished in Hfin. rewrite (finished_jobs _ Hfin). by rewrite run_job_at.
Qed.

(** The calls of a finished run whose jobs all have the identity [k]: the
    state is that of one call of [addJob], with the job of one of the
    goroutines, and that call alone can have appended. *)
Lemma same_identity_run init (workers : list RemoteJob) (k : string) (schedule : list nat) :
  workers <> [] ->
  Forall (fun job => jobID job = k) workers ->
  finished (run (start init workers) schedule) = true ->
  exists job,
    job ∈ workers /\ jobID job = k
    /\ shared (run (start init workers) schedule) = addJob init job
    /\ count_if has_added (goroutines (run (start init workers) schedule))
       = (if seen init k then 0 else 1)
    /\ mutex (run (start init workers) schedule) = false.
Proof.
  intros Hne Hall Hfin.
  destruct (finished_run_linearized init workers schedule Hfin)
    as (hist & Hhist & Hsh & Hout & Hm).
  destruct hist as [|job rest].
  { apply Permutation_nil_l in Hhist. by subst workers. }
  assert (Forall (fun x => jobID x = k) (job :: rest)) as Hall' by (by rewrite Hhist).
  apply Forall_cons in Hall' as [Hk Hrest].
  destruct (same_identity_calls init k job rest Hk Hrest) as [Hfold Houtcomes].
  exists job. split; [rewrite <-Hhist; by left|]. split; [done|].
  split; [by rewrite Hsh|]. split; [|done].
  rewrite count_has_added, (count_if_perm _ _ _ Hout), Houtcomes.
  rewrite count_if_cons, count_no_admission. simpl. by destruct (seen init k).
Qed.

End finished_runs.

(** What one call of [addJob] with a job of the identity [k] leaves. *)
Lemma addJob_identity (init : JobScraper) (job : RemoteJob) (k : string) :
  jobID job = k ->
  jobs (addJob init job) = jobs init ++ (if seen init k then [] else [set_ID job k])
  /\ count_if (fun r => bool_decide (ID r = k)) (jobs (addJob init job))
     = count_if (fun r => bool_decide (ID r = k)) (jobs init) + (if seen init k then 0 else 1)
  /\ (consistent init ->
      count_if (fun r => bool_decide (ID r = k)) (jobs (addJob init job)) = 1)
  /\ seen (addJob init job) k = true.
Proof.
  intros Hk.
  assert (jobs (addJob init job) = jobs init ++ (if seen init k then [] else [set_ID job k]))
    as Hjobs.
  { rewrite jobs_addJob. unfold admitted. rewrite Hk. by destruct (seen init k). }
  assert (seen (addJob init job) k = true) as Hseen.
  { apply seen_after_addJob. by left. }
  split; [done|]. split; [|split; [|done]].
  - rewrite Hjobs. destruct (seen init k).
    + rewrite app_nil_r. lia.
    + rewrite count_if_snoc. simpl. by rewrite bool_decide_true.
  - intros Hc. rewrite (consistent_count _ k (consistent_addJob init job Hc)).
    by rewrite Hseen.
Qed.

(** *** The run of [addJob] of [4jobswithnotification.go] *)

Section counting_runs.
Import Concurrent4.
Implicit Types (c : Config) (p q : pc) (l : list pc) (i j : nat) (init : Notify4.JobScraper4).

(** A step is a step of the run on the shared fields, or the increment. *)
Lemma erase_step c i :
  erase (step c i)
  = match goroutines c !! i with
    | Some (AtCount _) => erase c
    | _ => Concurrent.step (erase c) i
    end.
Proof.
  unfold step, Concurrent.step, erase. simpl. rewrite list_lookup_fmap.
  destruct (goroutines c !! i) as [p|] eqn:Hi; [|done].
  destruct p as [job|job|job k|job k|job|job|job b|job b]; simpl;
    rewrite ?list_fmap_insert; try done.
  - destruct (mutex c) eqn:Hm; simpl; [by rewrite Hm|by rewrite list_fmap_insert].
  - destruct (negb _); simpl; by rewrite list_fmap_insert.
  - f_equal. apply list_insert_id. by rewrite list_lookup_fmap, Hi.
Qed.

Lemma erase_run c (schedule : list nat) :
  exists schedule', erase (run c schedule) = Concurrent.run (erase c) schedule'.
Proof.
  revert c. induction schedule as [|i schedule IH]; intros c; [by exists []|].
  destruct (IH (step c i)) as [schedule' H]. cbn [run foldl]. unfold run in H. rewrite H.
  rewrite erase_step. destruct (goroutines c !! i) as [[]|];
    try (by exists (i :: schedule')). by exists schedule'.
Qed.

Lemma erase_start init (jobs : list RemoteJob) :
  erase (start init jobs) = Concurrent.start (Notify4.base init) jobs.
Proof. unfold erase, start, Concurrent.start. simpl. by rewrite <-list_fmap_compose. Qed.

Lemma erase_finished c : Concurrent.finished (erase c) = finished c.
Proof.
  unfold finished, Concurrent.finished, erase. simpl.
  induction (goroutines c) as [|p l IH]; [done|].
  rewrite fmap_cons. cbn [forallb]. rewrite IH. by destruct p.
Qed.

Lemma erase_has_added l :
  count_if Concurrent.has_added (erase_pc <$> l) = count_if has_added l.
Proof.
  induction l as [|p l IH]; [done|]. rewrite fmap_cons, !count_if_cons, IH.
  by destruct p as [| | | | | |job []|job []].
Qed.

(** The counter counts the goroutines that have incremented it. *)
Lemma step_counted c i :
  Notify4.newJobsCount (shared (step c i)) + count_if counted (goroutines c)
  = Notify4.newJobsCount (shared c) + count_if counted (goroutines (step c i)).
Proof.
  unfold step. destruct (goroutines c !! i) as [p|] eqn:Hi; [|done].
  destruct p as [job|job|job k|job k|job|job|job b|job b]; simpl;
    repeat (match goal with |- context [if ?b then _ else _] => destruct b end);
    simpl; try done;
    match goal with |- context [<[i:=?p']> _] =>
      pose proof (count_if_insert counted _ _ _ p' Hi) as H; simpl in H end;
    lia.
Qed.

Lemma run_counted c (schedule : list nat) :
  Notify4.newJobsCount (shared (run c schedule)) + count_if counted (goroutines c)
  = Notify4.newJobsCount (shared c) + count_if counted (goroutines (run c schedule)).
Proof.
  revert c. induction schedule as [|i schedule IH]; intros c; [done|].
  cbn [run foldl]. pose proof (IH (step c i)) as H. unfold run in H.
  pose proof (step_counted c i). lia.
Qed.

Lemma finished_counted l :
  forallb is_done l = true -> count_if counted l = count_if has_added l.
Proof.
  induction l as [|p l IH]; [done|]. simpl. intros [Hp Hl]%andb_prop.
  rewrite !count_if_cons, IH by done. by destruct p.
Qed.

Lemma start_counted (jobs : list RemoteJob) : count_if counted (AtLock <$> jobs) = 0.
Proof.
  induction jobs as [|job jobs IH]; [done|]. by rewrite fmap_cons, count_if_cons, IH.
Qed.

Lemma JobScraper4_eq (js js' : Notify4.JobScraper4) :
  Notify4.base js = Notify4.base js' ->
  Notify4.newJobsCount js = Notify4.newJobsCount js' -> js = js'.
Proof. destruct js, js'. simpl. by intros -> ->. Qed.

(** A finished run whose jobs all have the identity [k] leaves the state of
    one call of [addJob], with the job of one of the goroutines. *)
Lemma same_identity_run4 init (workers : list RemoteJob) (k : string) (schedule : list nat) :
  workers <> [] ->
  Forall (fun job => jobID job = k) workers ->
  finished (run (start init workers) schedule) = true ->
  exists job,
    job ∈ workers /\ jobID job = k
    /\ shared (run (start init workers) schedule) = Notify4.addJob init job
    /\ count_if has_added (goroutines (run (start init workers) schedule))
       = (if seen (Notify4.base init) k then 0 else 1)
    /\ mutex (run (start init workers) schedule) = false.
Proof.
  intros Hne Hall Hfin. set (final := run (start init workers) schedule) in *.
  destruct (erase_run (start init workers) schedule) as [schedule' He].
  fold final in He. rewrite erase_start in He.
  pose proof Hfin as Hfin'. rewrite <-erase_finished, He in Hfin'.
  destruct (same_identity_run (Notify4.base init) workers k schedule' Hne Hall Hfin')
    as (job & Hjob & Hk & Hsh & Hadded & Hm).
  rewrite <-He in Hsh, Hadded, Hm. simpl in Hsh, Hadded, Hm.
  rewrite erase_has_added in Hadded.
  exists job. split; [done|]. split; [done|]. split; [|done].
  pose proof (run_counted (start init workers) schedule) as Hcount. fold final in Hcount.
  simpl in Hcount. rewrite start_counted in Hcount.
  unfold finished in Hfin. rewrite (finished_counted _ Hfin), Hadded in Hcount.
  destruct (Notify4_addJob_base init job) as [Hbase Hn].
  apply JobScraper4_eq; [by rewrite Hbase|].
  rewrite Hn. unfold admitted. rewrite Hk. destruct (seen (Notify4.base init) k); simpl; lia.
Qed.

(** No deadlock: as long as some goroutine has not returned, some goroutine
    can make a step that counts. *)
Lemma step_measure4 c i p :
  goroutines c !! i = Some p -> is_done p = false ->
  Concurrent.in_cs (erase_pc p) = true \/ mutex c = false ->
  measure (step c i) < measure c.
Proof.
  intros Hi Hnd Hrun. unfold step, measure. rewrite Hi.
  destruct p as [job|job|job k|job k|job|job|job b|job b]; try done;
    repeat (match goal with |- context [if negb ?b then _ else _] => destruct (negb b) end);
    try (destruct Hrun as [?|Hm]; [done|rewrite Hm]);
    simpl;
    match goal with |- context [<[i:=?p']> _] =>
      pose proof (sum_list_insert remaining _ _ _ p' Hi) as H; simpl in H end;
    lia.
Qed.

Lemma unfinished_goroutine4 c :
  finished c = false -> exists i p, goroutines c !! i = Some p /\ is_done p = false.
Proof.
  unfold finished. generalize (goroutines c) as l.
  induction l as [|q l IH]; [done|]. simpl. destruct (is_done q) eqn:Hq.
  - intros (i & p & Hi & Hp)%IH. by exists (S i), p.
  - intros _. by exists 0, q.
Qed.

Lemma step_progress4 (base : JobScraper) c :
  Concurrent.linearized base (erase c) -> finished c = false ->
  exists i, measure (step c i) < measure c.
Proof.
  intros (hist & _ & Hcs) Hfin. unfold Concurrent.cs_inv in Hcs. simpl in Hcs.
  destruct (mutex c) eqn:Hm.
  - destruct Hcs as (i & q & Hi & Hok & _). exists i.
    rewrite list_lookup_fmap in Hi.
    destruct (goroutines c !! i) as [p|] eqn:Hp; [|done]. injection Hi as <-.
    apply (step_measure4 c i p Hp); [by destruct p|left; by destruct p].
  - destruct Hcs as [_ Hnone].
    apply unfinished_goroutine4 in Hfin as (i & p & Hi & Hp). exists i.
    apply (step_measure4 c i p Hi Hp). by right.
Qed.

Lemma erase_step_linearized (base : JobScraper) c i :
  Concurrent.linearized base (erase c) -> Concurrent.linearized base (erase (step c i)).
Proof.
  intros H. rewrite erase_step. destruct (goroutines c !! i) as [[]|];
    try (by apply step_linearized). done.
Qed.

Lemma can_finish4 (base : JobScraper) c :
  Concurrent.linearized base (erase c) ->
  exists schedule, finished (run c schedule) = true.
Proof.
  remember (measure c) as n eqn:Hn. revert c Hn.
  induction (lt_wf n) as [n _ IH]. intros c -> Hlin.
  destruct (finished c) eqn:Hfin; [by exists []|].
  destruct (step_progress4 base c Hlin Hfin) as [i Hi].
  destruct (IH _ Hi (step c i) eq_refl (erase_step_linearized _ _ _ Hlin)) as [schedule H].
  by exists (i :: schedule).
Qed.

Lemma every_schedule_can_finish4 init (workers : list RemoteJob) (schedule : list nat) :
  exists rest, finished (run (start init workers) (schedule ++ rest)) = true.
Proof.
  destruct (can_finish4 (Notify4.base init) (run (start init workers) schedule)) as [rest H].
  - destruct (erase_run (start init workers) schedule) as [schedule' ->].
    rewrite erase_start. apply run_linearized, start_linearized.
  - exists rest. unfold run in *. by rewrite foldl_app.
Qed.

End counting_runs.

(** C3: goroutines that call [addJob] with jobs of one identity, in
    [7advanced_remote_scraper.go] and in [4jobswithnotification.go], from
    any state and under every schedule.  The goroutines can always all be
    brought to their return.  Once all of them have returned, the shared
    state is the one that a single call of [addJob] with the job of one of
    the goroutines leaves: if the identity had not been seen, exactly one
    call has appended its job and the job list has grown by exactly that
    job (and the counter of [4jobswithnotification.go] by one); if it had
    been seen, no call has appended and the list is as before.  In both
    cases the identity is marked as seen, the mutex is free, and from a
    consistent state exactly one job of the list carries the identity. *)
Theorem one_admission_per_identity (workers : list RemoteJob) (k : string)
    (schedule : list nat) :
  workers <> [] ->
  Forall (fun job => jobID job = k) workers ->
  (forall init : JobScraper,
     (exists rest,
        Concurrent.finished
          (Concurrent.run (Concurrent.start init workers) (schedule ++ rest)) = true)
     /\ (Concurrent.finished (Concurrent.run (Concurrent.start init workers) schedule) = true ->
         let final := Concurrent.run (Concurrent.start init workers) schedule in
         let new := if seen init k then 0 else 1 in
         (exists job, job ∈ workers
            /\ Concurrent.shared final = addJob init job
            /\ jobs (Concurrent.shared final)
               = jobs init ++ (if seen init k then [] else [set_ID job k]))
         /\ count_if Concurrent.has_added (Concurrent.goroutines final) = new
         /\ count_if (fun r => bool_decide (ID r = k)) (jobs (Concurrent.shared final))
            = count_if (fun r => bool_decide (ID r = k)) (jobs init) + new
         /\ (consistent init ->
             count_if (fun r => bool_decide (ID r = k)) (jobs (Concurrent.shared final)) = 1)
         /\ seen (Concurrent.shared final) k = true
         /\ Concurrent.mutex final = false))
  /\ (forall init : Notify4.JobScraper4,
        (exists rest,
           Concurrent4.finished
             (Concurrent4.run (Concurrent4.start init workers) (schedule ++ rest)) = true)
        /\ (Concurrent4.finished (Concurrent4.run (Concurrent4.start init workers) schedule)
            = true ->
            let final := Concurrent4.run (Concurrent4.start init workers) schedule in
            let new := if seen (Notify4.base init) k then 0 else 1 in
            (exists job, job ∈ workers
               /\ Concurrent4.shared final = Notify4.addJob init job
               /\ jobs (Notify4.base (Concurrent4.shared final))
                  = jobs (Notify4.base init)
                    ++ (if seen (Notify4.base init) k then [] else [set_ID job k]))
            /\ count_if Concurrent4.has_added (Concurrent4.goroutines final) = new
            /\ Notify4.newJobsCount (Concurrent4.shared final)
               = Notify4.newJobsCount init + new
            /\ count_if (fun r => bool_decide (ID r = k))
                 (jobs (Notify4.base (Concurrent4.shared final)))
               = count_if (fun r => bool_decide (ID r = k)) (jobs (Notify4.base init)) + new
            /\ (consistent (Notify4.base init) ->
                count_if (fun r => bool_decide (ID r = k))
                  (jobs (Notify4.base (Concurrent4.shared final))) = 1)
            /\ seen (Notify4.base (Concurrent4.shared final)) k = true
            /\ Concurrent4.mutex final = false)).
Proof.
  intros Hne Hall. split.
  - intros init. split; [apply every_schedule_can_finish|].
    intros Hfin final new.
    destruct (same_identity_run init workers k schedule Hne Hall Hfin)
      as (job & Hjob & Hk & Hsh & Hadded & Hm). fold final in Hsh, Hadded, Hm.
    destruct (addJob_identity init job k Hk) as (Hjobs & Hcount & Hone & Hseen).
    rewrite Hsh. split; [by exists job|]. done.
  - intros init. split; [apply every_schedule_can_finish4|].
    intros Hfin final new.
    destruct (same_identity_run4 init workers k schedule Hne Hall Hfin)
      as (job & Hjob & Hk & Hsh & Hadded & Hm). fold final in Hsh, Hadded, Hm.
    destruct (Notify4_addJob_base init job) as [Hbase Hn].
    destruct (addJob_identity (Notify4.base init) job k Hk) as (Hjobs & Hcount & Hone & Hseen).
    rewrite Hsh, Hbase. split; [by exists job|]. split; [done|]. split; [|done].
    rewrite Hn. unfold admitted, new. rewrite Hk.
    by destruct (seen (Notify4.base init) k).
Qed.

(** Three goroutines find the same job on three platforms; their steps are
    interleaved, and the second one takes the mutex first.  In the second
    run the job is among the sample jobs added before the goroutines
    start. *)
Lemma one_admission_per_identity_witness :
  let workers := [job_of "Indeed" "Junior Engineer" "Acme";
                  job_of "LinkedIn" "Junior Engineer" "Acme";
                  job_of "Glassdoor" "junior engineer" "ACME"] in
  let schedule := [1; 0; 2; 1; 1; 0; 2; 1; 1; 2; 1; 0; 0; 2; 1; 2; 0; 2; 2; 0; 2; 0; 0; 0] in
  let final := Concurrent.run (Concurrent.start NewJobScraper workers) schedule in
  let init4 := {| Notify4.base := NewJobScraper; Notify4.newJobsCount := 0 |} in
  let final4 := Concurrent4.run (Concurrent4.start init4 workers) schedule in
  let sampled := addJob NewJobScraper (job_of "Sample" "Junior Engineer" "Acme") in
  let again := Concurrent.run (Concurrent.start sampled workers) schedule in
  (count_if Concurrent.has_added (Concurrent.goroutines final) = 1
   /\ jobs (Concurrent.shared final)
      = [set_ID (job_of "LinkedIn" "Junior Engineer" "Acme") "acme_junior_engineer"]
   /\ count_if (fun r => bool_decide (ID r = "acme_junior_engineer"))
        (jobs (Concurrent.shared final)) = 1
   /\ seen (Concurrent.shared final) "acme_junior_engineer" = true
   /\ Concurrent.mutex final = false)
  /\ (count_if Concurrent4.has_added (Concurrent4.goroutines final4) = 1
      /\ jobs (Notify4.base (Concurrent4.shared final4))
         = [set_ID (job_of "LinkedIn" "Junior Engineer" "Acme") "acme_junior_engineer"]
      /\ Notify4.newJobsCount (Concurrent4.shared final4) = 1
      /\ Concurrent4.mutex final4 = false)
  /\ (count_if Concurrent.has_added (Concurrent.goroutines again) = 0
      /\ jobs (Concurrent.shared again) = jobs sampled
      /\ count_if (fun r => bool_decide (ID r = "acme_junior_engineer"))
           (jobs (Concurrent.shared again)) = 1).
Proof.
  intros workers schedule final init4 final4 sampled again.
  destruct (one_admission_per_identity workers "acme_junior_engineer" schedule
              ltac:(done) ltac:(repeat constructor)) as [H7 H4].
  destruct (H7 NewJobScraper) as [_ Hrun].
  destruct (Hrun ltac:(vm_compute; reflexivity)) as (_ & Hadded & _ & Hone & Hseen & Hfree).
  destruct (H4 init4) as [_ Hrun4].
  destruct (Hrun4 ltac:(vm_compute; reflexivity)) as (_ & Hadded4 & Hcount4 & _ & _ & _ & Hfree4).
  destruct (H7 sampled) as [_ Hrun'].
  destruct (Hrun' ltac:(vm_compute; reflexivity)) as ((job & _ & _ & Hjobs') & Hadded' & _ & Hone' & _).
  split; [|split].
  - split; [exact Hadded|]. split; [by vm_compute|]. split; [exact (Hone consistent_New)|].
    split; [exact Hseen | exact Hfree].
  - split; [exact Hadded4|]. split; [by vm_compute|]. split; [exact Hcount4|exact Hfree4].
  - split; [exact Hadded'|]. split; [|exact (Hone' (consistent_addJob _ _ consistent_New))].
    fold again in Hjobs'. rewrite Hjobs'. apply app_nil_r.
Defined.
